(** * Snake: the simulation core of the [SnakeGame] component

    A shallow embedding of the game logic of the React component
    [SnakeGame]: the grid constants, the collision test, the food
    placement loop, the simulation step [moveSnake], the key handler
    and the three commands [startGame], [togglePause], [resetGame].

    The eight [useState] cells of the component are the fields of one
    record, and each setter is a function on that record.  A handler
    runs against the values of the last render, and every render
    happens before the next handler: a handler is a function from the
    state to the next state.

    [Math.random()] is the only source of non-determinism, and the code
    uses it in one expression, [Math.floor(Math.random() * GRID_SIZE)].
    The values of that expression form an infinite sequence of
    integers, [random n] being the one of the n-th call of
    [Math.random()], and the state counts the calls made so far.  The
    product and the floor are binary64 operations: nothing is derived
    here about their result, and where it matters that a drawn
    coordinate is one of the grid, this is a stated premise.  The loop of
    [generateFood] has no bound in the source, so it takes fuel here
    and [None] stands for a loop that has not yet returned. *)

From Stdlib Require Import ZArith List String Bool Lia.
From Stdlib Require DecimalString DecimalPos DecimalZ.
Import ListNotations.
Open Scope Z_scope.

(** ** Game configuration *)

Definition GRID_SIZE : Z := 20.
Definition INITIAL_SPEED : Z := 150.
Definition SPEED_INCREASE : Z := 10.
Definition MIN_SPEED : Z := 50.

Inductive Direction : Set := UP | DOWN | LEFT | RIGHT.
Inductive GameState : Set := menu | playing | paused | gameOver.
Record Position : Set := mkPosition { x : Z; y : Z }.

Definition DIRECTIONS (d : Direction) : Position :=
  match d with
  | UP => {| x := 0; y := -1 |}
  | DOWN => {| x := 0; y := 1 |}
  | LEFT => {| x := -1; y := 0 |}
  | RIGHT => {| x := 1; y := 0 |}
  end.

Definition GameState_eqb (a b : GameState) : bool :=
  match a, b with
  | menu, menu | playing, playing | paused, paused | gameOver, gameOver => true
  | _, _ => false
  end.

Definition Direction_eqb (a b : Direction) : bool :=
  match a, b with
  | UP, UP | DOWN, DOWN | LEFT, LEFT | RIGHT, RIGHT => true
  | _, _ => false
  end.

(** ** The component state *)

Record State : Type := mkState {
  gameState : GameState;
  snake : list Position;
  direction : Direction;
  food : Position;
  score : Z;
  highScore : Z;
  speed : Z;
  level : Z;
  draws : nat  (* calls of Math.random() made so far *)
}.

Definition setGameState (v : GameState) (s : State) : State :=
  mkState v (snake s) (direction s) (food s) (score s) (highScore s)
          (speed s) (level s) (draws s).
Definition setSnake (v : list Position) (s : State) : State :=
  mkState (gameState s) v (direction s) (food s) (score s) (highScore s)
          (speed s) (level s) (draws s).
Definition setDirection (v : Direction) (s : State) : State :=
  mkState (gameState s) (snake s) v (food s) (score s) (highScore s)
          (speed s) (level s) (draws s).
Definition setFood (v : Position) (s : State) : State :=
  mkState (gameState s) (snake s) (direction s) v (score s) (highScore s)
          (speed s) (level s) (draws s).
Definition setScore (v : Z) (s : State) : State :=
  mkState (gameState s) (snake s) (direction s) (food s) v (highScore s)
          (speed s) (level s) (draws s).
Definition setHighScore (v : Z) (s : State) : State :=
  mkState (gameState s) (snake s) (direction s) (food s) (score s) v
          (speed s) (level s) (draws s).
Definition setSpeed (v : Z) (s : State) : State :=
  mkState (gameState s) (snake s) (direction s) (food s) (score s)
          (highScore s) v (level s) (draws s).
Definition setLevel (v : Z) (s : State) : State :=
  mkState (gameState s) (snake s) (direction s) (food s) (score s)
          (highScore s) (speed s) v (draws s).
Definition setDraws (v : nat) (s : State) : State :=
  mkState (gameState s) (snake s) (direction s) (food s) (score s)
          (highScore s) (speed s) (level s) v.

(** The values given to [useState]. *)
Definition initialState : State :=
  {| gameState := menu;
     snake := [ {| x := 10; y := 10 |} ];
     direction := RIGHT;
     food := {| x := 15; y := 15 |};
     score := 0;
     highScore := 0;
     speed := INITIAL_SPEED;
     level := 1;
     draws := 0 |}.

(** The mount effect: [localStorage.getItem("snakeHighScore")], parsed
    when present.  The item is only ever written by [moveSnake], as
    [score.toString()], so it parses to an integer.  The states of this
    model hold integers: a session that mounts on an item written by
    other means, which [parseInt] turns into NaN, is outside the model. *)
Definition mount (savedHighScore : option Z) : State :=
  match savedHighScore with
  | Some n => setHighScore n initialState
  | None => initialState
  end.

(** [body.some(segment => segment.x === p.x && segment.y === p.y)] *)
Definition some_at (p : Position) (body : list Position) : bool :=
  existsb (fun segment => (x segment =? x p) && (y segment =? y p)) body.

Definition checkCollision (head : Position) (body : list Position) : bool :=
  if (x head <? 0) || (x head >=? GRID_SIZE)
     || (y head <? 0) || (y head >=? GRID_SIZE)
  then true
  else some_at head body.

(** ** Commands that draw no random number *)

Definition startGame (s : State) : State := setGameState playing s.

Definition togglePause (s : State) : State :=
  match gameState s with
  | playing => setGameState paused s
  | paused => setGameState playing s
  | _ => s
  end.

Definition resetGame (s : State) : State :=
  setGameState playing
    (setLevel 1
       (setSpeed INITIAL_SPEED
          (setScore 0
             (setFood {| x := 15; y := 15 |}
                (setDirection RIGHT
                   (setSnake [ {| x := 10; y := 10 |} ] s)))))).

(** [handleKeyPress], on [e.code]. *)
Definition handleKeyPress (code : string) (s : State) : State :=
  if GameState_eqb (gameState s) menu
     && (String.eqb code "Space" || String.eqb code "Enter")
  then startGame s
  else if GameState_eqb (gameState s) gameOver && String.eqb code "KeyR"
  then resetGame s
  else if GameState_eqb (gameState s) playing
          || GameState_eqb (gameState s) paused
  then
    if String.eqb code "Space" then togglePause s
    else if String.eqb code "KeyR" then resetGame s
    else if String.eqb code "ArrowUp" || String.eqb code "KeyW" then
      if negb (Direction_eqb (direction s) DOWN) then setDirection UP s else s
    else if String.eqb code "ArrowDown" || String.eqb code "KeyS" then
      if negb (Direction_eqb (direction s) UP) then setDirection DOWN s else s
    else if String.eqb code "ArrowLeft" || String.eqb code "KeyA" then
      if negb (Direction_eqb (direction s) RIGHT) then setDirection LEFT s else s
    else if String.eqb code "ArrowRight" || String.eqb code "KeyD" then
      if negb (Direction_eqb (direction s) LEFT) then setDirection RIGHT s else s
    else s
  else s.

(** ** Food placement and the simulation step *)

Section Simulation.

(** [random n] is the value of [Math.floor(Math.random() * GRID_SIZE)]
    at the n-th call of [Math.random()]. *)
Variable random : nat -> Z.

(** The object literal of [generateFood] evaluates that expression
    twice, for [x] and then for [y]. *)
Definition randomCell (n : nat) : Position :=
  {| x := random n; y := random (S n) |}.

(** The [do ... while] loop; [n] counts the calls of [Math.random()]
    before the iteration.  The result carries the count after it. *)
Fixpoint generateFood (fuel : nat) (n : nat) (snakePositions : list Position)
  : option (Position * nat) :=
  match fuel with
  | O => None
  | S fuel' =>
      let newFood := randomCell n in
      if some_at newFood snakePositions
      then generateFood fuel' (S (S n)) snakePositions
      else Some (newFood, S (S n))
  end.

(** The head the step tries: [head.x += dir.x; head.y += dir.y]. *)
Definition candidate (h : Position) (d : Direction) : Position :=
  {| x := x h + x (DIRECTIONS d); y := y h + y (DIRECTIONS d) |}.

(** [moveSnake].  On an empty array [newSnake[0]] is [undefined], the
    coordinates of [head] are [NaN], no comparison holds, the head is
    pushed and popped again: nothing changes. *)
Definition moveSnake (fuel : nat) (s : State) : option State :=
  if negb (GameState_eqb (gameState s) playing) then Some s
  else
    match snake s with
    | [] => Some s
    | h :: _ =>
        let newSnake := snake s in
        let head := candidate h (direction s) in
        if checkCollision head newSnake then
          Some (if score s >? highScore s
                then setHighScore (score s) (setGameState gameOver s)
                else setGameState gameOver s)
        else
          let newSnake := head :: newSnake in
          if (x head =? x (food s)) && (y head =? y (food s)) then
            let newScore := score s + 1 in
            match generateFood fuel (draws s) newSnake with
            | None => None
            | Some (newFood, n) =>
                let s1 := setDraws n (setFood newFood (setScore newScore s)) in
                let newLevel := newScore / 5 + 1 in
                let s2 :=
                  if negb (newLevel =? level s) then
                    setSpeed (Z.max MIN_SPEED
                                (INITIAL_SPEED - (newLevel - 1) * SPEED_INCREASE))
                      (setLevel newLevel s1)
                  else s1 in
                Some (setSnake newSnake s2)
            end
          else Some (setSnake (removelast newSnake) s)
    end.

(** ** Events

    What can happen to the component: a key goes down, the game loop
    calls [moveSnake], or one of the buttons is clicked.  A button
    exists only in the states that render it. *)
Inductive Event : Type :=
  | KeyDown (code : string)
  | Tick
  | ClickStart
  | ClickPause
  | ClickRestart
  | ClickPlayAgain.

Definition dispatch (fuel : nat) (e : Event) (s : State) : option State :=
  match e with
  | KeyDown code => Some (handleKeyPress code s)
  | Tick => moveSnake fuel s
  | ClickStart =>
      Some (if GameState_eqb (gameState s) menu then startGame s else s)
  | ClickPause =>
      Some (if GameState_eqb (gameState s) playing
               || GameState_eqb (gameState s) paused
            then togglePause s else s)
  | ClickRestart =>
      Some (if GameState_eqb (gameState s) playing
               || GameState_eqb (gameState s) paused
            then resetGame s else s)
  | ClickPlayAgain =>
      Some (if GameState_eqb (gameState s) gameOver then resetGame s else s)
  end.

Inductive reachable : State -> Prop :=
  | reachable_mount : forall saved, reachable (mount saved)
  | reachable_step : forall s e fuel s',
      reachable s -> dispatch fuel e s = Some s' -> reachable s'.

End Simulation.

(** ** Vocabulary of the properties *)

Definition in_grid (p : Position) : Prop :=
  0 <= x p < GRID_SIZE /\ 0 <= y p < GRID_SIZE.

(** The test of the food branch: [head.x === food.x && head.y === food.y]. *)
Definition on_food (head : Position) (s : State) : bool :=
  (x head =? x (food s)) && (y head =? y (food s)).

(** The step ends the game: [moveSnake] runs and [checkCollision] holds. *)
Definition terminalCollision (s : State) : bool :=
  GameState_eqb (gameState s) playing
  && match snake s with
     | [] => false
     | h :: _ => checkCollision (candidate h (direction s)) (snake s)
     end.

(** The step takes the food branch. *)
Definition eatsFood (s : State) : bool :=
  GameState_eqb (gameState s) playing
  && match snake s with
     | [] => false
     | h :: _ =>
         negb (checkCollision (candidate h (direction s)) (snake s))
         && on_food (candidate h (direction s)) s
     end.

(** The direction a key asks for: the four pairs of [case] labels. *)
Definition keyDirection (code : string) : option Direction :=
  if String.eqb code "ArrowUp" || String.eqb code "KeyW" then Some UP
  else if String.eqb code "ArrowDown" || String.eqb code "KeyS" then Some DOWN
  else if String.eqb code "ArrowLeft" || String.eqb code "KeyA" then Some LEFT
  else if String.eqb code "ArrowRight" || String.eqb code "KeyD" then Some RIGHT
  else None.

Definition opposite (d : Direction) : Direction :=
  match d with
  | UP => DOWN
  | DOWN => UP
  | LEFT => RIGHT
  | RIGHT => LEFT
  end.

(** The level and the interval the difficulty curve gives to a score. *)
Definition levelOf (sc : Z) : Z := sc / 5 + 1.
Definition speedOf (lv : Z) : Z :=
  Z.max MIN_SPEED (INITIAL_SPEED - (lv - 1) * SPEED_INCREASE).

(** Every drawn coordinate is one of the grid.  For a [Math.random()]
    in the interval [0, 1) this is a fact of the binary64 product and
    floor; it is a premise wherever it is used. *)
Definition draws_in_grid (random : nat -> Z) : Prop :=
  forall n, 0 <= random n < GRID_SIZE.

(** The three results of a step of [moveSnake] on a snake of head [h]:
    the game ends, the snake moves on, the snake eats and grows. *)
Definition crashed (s : State) : State :=
  setHighScore (Z.max (score s) (highScore s)) (setGameState gameOver s).

Definition advanced (h : Position) (s : State) : State :=
  setSnake (removelast (candidate h (direction s) :: snake s)) s.

Definition grown (h newFood : Position) (n : nat) (s : State) : State :=
  {| gameState := playing;
     snake := candidate h (direction s) :: snake s;
     direction := direction s;
     food := newFood;
     score := score s + 1;
     highScore := highScore s;
     speed := if levelOf (score s + 1) =? level s then speed s
              else speedOf (levelOf (score s + 1));
     level := levelOf (score s + 1);
     draws := n |}.

(** What one event can do to the state, as a relation: the shapes the
    results of [dispatch] have. *)
Inductive transition : State -> State -> Prop :=
  | tr_same : forall s, transition s s
  | tr_start : forall s, gameState s = menu -> transition s (startGame s)
  | tr_pause : forall s,
      gameState s = playing -> transition s (setGameState paused s)
  | tr_resume : forall s,
      gameState s = paused -> transition s (setGameState playing s)
  | tr_reset : forall s, gameState s <> menu -> transition s (resetGame s)
  | tr_turn : forall s d,
      gameState s = playing \/ gameState s = paused ->
      transition s (setDirection d s)
  | tr_crash : forall s,
      terminalCollision s = true -> transition s (crashed s)
  | tr_advance : forall s h t,
      gameState s = playing -> snake s = h :: t ->
      checkCollision (candidate h (direction s)) (snake s) = false ->
      on_food (candidate h (direction s)) s = false ->
      transition s (advanced h s)
  | tr_eat : forall s h t newFood n,
      gameState s = playing -> snake s = h :: t ->
      checkCollision (candidate h (direction s)) (snake s) = false ->
      on_food (candidate h (direction s)) s = true ->
      some_at newFood (candidate h (direction s) :: snake s) = false ->
      transition s (grown h newFood n s).

(** ** Concrete data *)

(** A closed tour of the grid: row 0 and the even rows go right, the
    odd rows go left between the columns 1 and 19, column 0 leads back
    up.  [nextDir p] is the heading of the tour on the cell [p]. *)
Definition nextDir (p : Position) : Direction :=
  if x p =? 0 then (if y p =? 0 then RIGHT else UP)
  else if Z.even (y p) then (if x p =? 19 then DOWN else RIGHT)
  else if x p =? 1 then (if y p =? 19 then LEFT else DOWN)
  else LEFT.

(** The cell [n] steps further on the tour. *)
Fixpoint walk (n : nat) (p : Position) : Position :=
  match n with
  | O => p
  | S n' => walk n' (candidate p (nextDir p))
  end.

(** The 400 cells of the tour, from the cell where the snake starts. *)
Definition tour : list Position :=
  map (fun k => walk k {| x := 10; y := 10 |}) (seq 0 400).

Fixpoint distinctb (l : list Position) : bool :=
  match l with
  | [] => true
  | p :: l' => negb (some_at p l') && distinctb l'
  end.

(** [covers l]: the list [l] holds every cell of the grid. *)
Definition covers (l : list Position) : bool :=
  forallb (fun a =>
    forallb (fun b => some_at {| x := Z.of_nat a; y := Z.of_nat b |} l)
            (seq 0 20))
    (seq 0 20).

(** Draws that walk through the grid: iteration [k] of a loop started
    at call 0 draws the cell (k mod 20, (k / 20) mod 20). *)
Definition sweep (n : nat) : Z :=
  let m := Z.of_nat (Nat.div2 n) in
  if Nat.even n then m mod 20 else (m / 20) mod 20.

(** Every draw is 0, as when [Math.random()] returns 0 at every call. *)
Definition stuck (n : nat) : Z := 0.

(** The key that asks for a heading. *)
Definition keyOf (d : Direction) : string :=
  match d with
  | UP => "ArrowUp"
  | DOWN => "ArrowDown"
  | LEFT => "ArrowLeft"
  | RIGHT => "ArrowRight"
  end.

(** [n] steps of a player who follows the tour from the cell [p]:
    before each step, the key of the tour's heading. *)
Fixpoint perfectPlay (n : nat) (p : Position) : list Event :=
  match n with
  | O => []
  | S n' => KeyDown (keyOf (nextDir p)) :: Tick
            :: perfectPlay n' (candidate p (nextDir p))
  end.

(** The tour reaches the first food (15,15) at its 90th step.  With
    the draws of [lucky], each new food lies on the next cell of the
    tour: iteration [k] draws the cell [k + 1] steps after (15,15). *)
Definition lucky (n : nat) : Z :=
  let c := walk (S (Nat.div2 n)) {| x := 15; y := 15 |} in
  (if Nat.even n then x c else y c) mod 20.

(** A first visit, the start key, and 487 steps along the tour: 90 to
    the first food, then 397 more, each of them eating. *)
Definition perfectGame : list Event :=
  KeyDown "Space" :: perfectPlay 487 {| x := 10; y := 10 |}.

(** Where [perfectGame] leads with the draws of [lucky]: the snake lies
    on the cells 487 down to 89 of the tour, its head on (18,15) and
    heading left; the food is on the one free cell, (17,15), in front
    of the head; 398 foods have been eaten. *)
Definition winning : State :=
  {| gameState := playing;
     snake := map (fun k => walk k {| x := 10; y := 10 |}) (rev (seq 89 399));
     direction := LEFT;
     food := {| x := 17; y := 15 |};
     score := 398;
     highScore := 0;
     speed := 50;
     level := 80;
     draws := 796 |}.

(** The game after the start key and two steps to the right. *)
Definition twoSteps : list Event := [KeyDown "Space"; Tick; Tick].

Fixpoint run (random : nat -> Z) (fuel : nat) (es : list Event) (s : State)
  : option State :=
  match es with
  | [] => Some s
  | e :: es' =>
      match dispatch random fuel e s with
      | Some s' => run random fuel es' s'
      | None => None
      end
  end.

(** Where [twoSteps] leads from a first visit (no stored high score). *)
Definition afterTwoSteps : State :=
  {| gameState := playing;
     snake := [ {| x := 12; y := 10 |} ];
     direction := RIGHT;
     food := {| x := 15; y := 15 |};
     score := 0;
     highScore := 0;
     speed := 150;
     level := 1;
     draws := 0 |}.

(** A returning visitor (stored high score 3) starts, goes five cells
    right, turns down and eats the first food on the fifth step down. *)
Definition eatOnce : list Event :=
  [KeyDown "Enter"; Tick; Tick; Tick; Tick; Tick;
   KeyDown "KeyS"; Tick; Tick; Tick; Tick; Tick].

(** Where [eatOnce] leads when the draws are those of [sweep]. *)
Definition afterEating : State :=
  {| gameState := playing;
     snake := [ {| x := 15; y := 15 |}; {| x := 15; y := 14 |} ];
     direction := DOWN;
     food := {| x := 0; y := 0 |};
     score := 1;
     highScore := 3;
     speed := 150;
     level := 1;
     draws := 2 |}.

(** The same visitor one step earlier: [eatOnce] without its last step. *)
Definition approach : list Event :=
  [KeyDown "Enter"; Tick; Tick; Tick; Tick; Tick;
   KeyDown "KeyS"; Tick; Tick; Tick; Tick].

(** Where [approach] leads: the head on (15,14), heading down, the food
    (15,15) in front of it. *)
Definition beforeEating : State :=
  {| gameState := playing;
     snake := [ {| x := 15; y := 14 |} ];
     direction := DOWN;
     food := {| x := 15; y := 15 |};
     score := 0;
     highScore := 3;
     speed := 150;
     level := 1;
     draws := 0 |}.

(** A snake of three cells about to eat: head (14,15), food (15,15). *)
Definition aboutToEat : State :=
  {| gameState := playing;
     snake := [ {| x := 14; y := 15 |}; {| x := 13; y := 15 |};
                {| x := 12; y := 15 |} ];
     direction := RIGHT;
     food := {| x := 15; y := 15 |};
     score := 4;
     highScore := 2;
     speed := 150;
     level := 1;
     draws := 0 |}.

(** A snake about to leave the grid on the left, with a new best score. *)
Definition atTheWall : State :=
  {| gameState := playing;
     snake := [ {| x := 0; y := 3 |}; {| x := 1; y := 3 |} ];
     direction := LEFT;
     food := {| x := 15; y := 15 |};
     score := 7;
     highScore := 5;
     speed := 140;
     level := 2;
     draws := 6 |}.

(** ** The overlay and the stored high score *)

(** The test of the banner "NEW HIGH SCORE" in the overlay that is
    rendered when [gameState === "gameOver"]:
    [score === highScore && score > 0]. *)
Definition newHighScoreBanner (s : State) : bool :=
  GameState_eqb (gameState s) gameOver
  && ((score s =? highScore s) && (score s >? 0)).

(** The item "snakeHighScore" of [localStorage] is [None] when absent.
    [parseInt] is the function of the language, [None] standing for
    NaN.  The mount effect skips an absent or empty item.  The states
    of this model hold integers: the mount is [None] on an item that
    parses to NaN. *)
Definition mountStored (parseInt : string -> option Z) (item : option string)
  : option State :=
  match item with
  | None => Some (mount None)
  | Some str =>
      if String.eqb str "" then Some (mount None)
      else match parseInt str with
           | Some n => Some (mount (Some n))
           | None => None
           end
  end.

(** The item after a call of [moveSnake]: the collision branch writes
    [score.toString()] when [score > highScore]. *)
Definition storeHighScore (toString : Z -> string) (s : State)
           (item : option string) : option string :=
  if terminalCollision s && (score s >? highScore s)
  then Some (toString (score s))
  else item.

(** An event on the state and the item together. *)
Definition dispatchStored (toString : Z -> string) (random : nat -> Z)
           (fuel : nat) (e : Event) (si : State * option string)
  : option (State * option string) :=
  match dispatch random fuel e (fst si) with
  | Some s' =>
      Some (s', match e with
                | Tick => storeHighScore toString (fst si) (snd si)
                | _ => snd si
                end)
  | None => None
  end.

Fixpoint runStored (toString : Z -> string) (random : nat -> Z) (fuel : nat)
         (es : list Event) (si : State * option string)
  : option (State * option string) :=
  match es with
  | [] => Some si
  | e :: es' =>
      match dispatchStored toString random fuel e si with
      | Some si' => runStored toString random fuel es' si'
      | None => None
      end
  end.

(** Decimal writing and reading of integers, for a concrete session. *)
Definition decimal (n : Z) : string :=
  DecimalString.NilZero.string_of_int (Z.to_int n).

Definition readDecimal (str : string) : option Z :=
  option_map Z.of_int (DecimalString.NilZero.int_of_string str).

(** ** The shape of the snake *)

(** Two cells side by side: one step of a heading apart. *)
Definition adjacent (a b : Position) : bool :=
  Z.abs (x a - x b) + Z.abs (y a - y b) =? 1.

(** Each cell of the list is next to the one that follows it. *)
Fixpoint connected (l : list Position) : bool :=
  match l with
  | a :: l' =>
      match l' with
      | b :: _ => adjacent a b && connected l'
      | [] => true
      end
  | [] => true
  end.

(** A snake of two cells heading right, its second cell behind the head. *)
Definition twoCells : State :=
  {| gameState := playing;
     snake := [ {| x := 10; y := 10 |}; {| x := 9; y := 10 |} ];
     direction := RIGHT;
     food := {| x := 15; y := 15 |};
     score := 1;
     highScore := 0;
     speed := 150;
     level := 1;
     draws := 2 |}.

(** A game lost on the left wall with the score 7, equal to the high
    score of before. *)
Definition tiedAtTheWall : State :=
  {| gameState := playing;
     snake := [ {| x := 0; y := 3 |}; {| x := 1; y := 3 |} ];
     direction := LEFT;
     food := {| x := 15; y := 15 |};
     score := 7;
     highScore := 7;
     speed := 140;
     level := 2;
     draws := 14 |}.

(** A first game: the snake eats once, goes on down and runs into the
    bottom wall on the fifth step after the food, with the score 1. *)
Definition lostSession : list Event := eatOnce ++ repeat Tick 5.

(** Reads the fields of a state built by the setters. *)
Ltac fields :=
  cbn [gameState snake direction food score highScore speed level draws
       crashed advanced grown resetGame startGame setGameState setSnake
       setDirection setFood setScore setHighScore setSpeed setLevel
       setDraws] in *.

(** * Properties *)

(** ** The collision test and the cells of a list *)

Lemma some_at_In (p : Position) (l : list Position) :
  some_at p l = true <-> In p l.
Proof.
  unfold some_at. rewrite existsb_exists. split.
  - intros [q [Hq Heq]]. apply andb_true_iff in Heq as [Hx Hy].
    apply Z.eqb_eq in Hx, Hy. destruct q, p; simpl in *. subst. exact Hq.
  - intros Hin. exists p. split; [exact Hin|].
    now rewrite !Z.eqb_refl.
Qed.

Lemma some_at_not_In (p : Position) (l : list Position) :
  some_at p l = false <-> ~ In p l.
Proof.
  rewrite <- some_at_In. destruct (some_at p l); split; congruence.
Qed.

Lemma on_food_eq (head : Position) (s : State) :
  on_food head s = true <-> head = food s.
Proof.
  unfold on_food. rewrite andb_true_iff, !Z.eqb_eq.
  destruct head, (food s); simpl. split.
  - intros [-> ->]. reflexivity.
  - intros H. injection H as -> ->. split; reflexivity.
Qed.

Lemma on_food_neq (head : Position) (s : State) :
  on_food head s = false <-> head <> food s.
Proof.
  rewrite <- on_food_eq. destruct (on_food head s); split; congruence.
Qed.

Lemma checkCollision_true (head : Position) (body : list Position) :
  checkCollision head body = true <-> ~ in_grid head \/ In head body.
Proof.
  unfold checkCollision, in_grid, GRID_SIZE.
  destruct (x head <? 0) eqn:E1; destruct (x head >=? 20) eqn:E2;
    destruct (y head <? 0) eqn:E3; destruct (y head >=? 20) eqn:E4; simpl;
    rewrite ?some_at_In; split; intros H; auto; try (left; lia).
  destruct H as [H | H]; [exfalso; apply H; lia | exact H].
Qed.

Lemma checkCollision_false (head : Position) (body : list Position) :
  checkCollision head body = false <-> in_grid head /\ ~ In head body.
Proof.
  split.
  - intros H. split.
    + unfold checkCollision, in_grid, GRID_SIZE in *.
      destruct (x head <? 0) eqn:E1; destruct (x head >=? 20) eqn:E2;
        destruct (y head <? 0) eqn:E3; destruct (y head >=? 20) eqn:E4;
        simpl in H; try discriminate; lia.
    + intros Hin. assert (checkCollision head body = true)
        by (apply checkCollision_true; now right). congruence.
  - intros [Hg Hn]. destruct (checkCollision head body) eqn:E; [|reflexivity].
    apply checkCollision_true in E as [E | E]; contradiction.
Qed.

Lemma GameState_eqb_eq (a b : GameState) : GameState_eqb a b = true <-> a = b.
Proof. destruct a, b; simpl; split; congruence. Qed.

Lemma Direction_eqb_eq (a b : Direction) : Direction_eqb a b = true <-> a = b.
Proof. destruct a, b; simpl; split; congruence. Qed.

(** ** The food placement loop *)

Section Placement.

Variable random : nat -> Z.

(** A returned cell is the one of the last iteration, it is free, and
    every iteration draws two numbers. *)
Lemma generateFood_sound (fuel n : nat) (l : list Position) newFood n' :
  generateFood random fuel n l = Some (newFood, n') ->
  some_at newFood l = false /\ exists k, n' = (n + 2 * S k)%nat
    /\ newFood = randomCell random (n + 2 * k).
Proof.
  revert n. induction fuel as [|fuel IH]; intros n; simpl; [discriminate|].
  destruct (some_at (randomCell random n) l) eqn:E.
  - intros H. apply IH in H as [Hf [k [Hn Hc]]]. split; [exact Hf|].
    exists (S k). split; [lia|]. rewrite Hc. f_equal. lia.
  - intros H. injection H as <- <-. split; [exact E|].
    exists 0%nat. split; [lia|]. f_equal. lia.
Qed.

(** More fuel does not change a result. *)
Lemma generateFood_more_fuel (fuel fuel' n : nat) (l : list Position) r :
  generateFood random fuel n l = Some r -> (fuel <= fuel')%nat ->
  generateFood random fuel' n l = Some r.
Proof.
  revert fuel' n. induction fuel as [|fuel IH]; intros fuel' n; simpl;
    [discriminate|].
  intros H Hle. destruct fuel' as [|fuel']; [lia|]. simpl.
  destruct (some_at (randomCell random n) l); [|exact H].
  apply IH; [exact H | lia].
Qed.

(** The loop returns as soon as an iteration draws a free cell. *)
Lemma generateFood_returns (k n : nat) (l : list Position) :
  some_at (randomCell random (n + 2 * k)) l = false ->
  exists newFood n', generateFood random (S k) n l = Some (newFood, n')
                     /\ some_at newFood l = false.
Proof.
  revert n. induction k as [|k IH]; intros n Hfree.
  - replace (n + 2 * 0)%nat with n in Hfree by lia.
    simpl. rewrite Hfree. eauto.
  - change (generateFood random (S (S k)) n l)
      with (if some_at (randomCell random n) l
            then generateFood random (S k) (S (S n)) l
            else Some (randomCell random n, S (S n))).
    destruct (some_at (randomCell random n) l) eqn:E; [|eauto].
    apply IH. replace (S (S n) + 2 * k)%nat with (n + 2 * S k)%nat by lia.
    exact Hfree.
Qed.

(** While every drawn cell is taken, the loop goes on. *)
Lemma generateFood_spins (l : list Position) :
  (forall n, some_at (randomCell random n) l = true) ->
  forall fuel n, generateFood random fuel n l = None.
Proof.
  intros Hall. induction fuel as [|fuel IH]; intros n; simpl; [reflexivity|].
  rewrite Hall. apply IH.
Qed.

(** A result is the cell of the first iteration that draws a free
    one. *)
Lemma generateFood_exact (fuel n : nat) (l : list Position) newFood n' :
  generateFood random fuel n l = Some (newFood, n') ->
  exists k, (k < fuel)%nat
    /\ newFood = randomCell random (n + 2 * k)
    /\ n' = (n + 2 * k + 2)%nat
    /\ some_at newFood l = false
    /\ forall j, (j < k)%nat ->
         some_at (randomCell random (n + 2 * j)) l = true.
Proof.
  revert n. induction fuel as [|fuel IH]; intros n; [discriminate|].
  cbn [generateFood]. cbv zeta.
  destruct (some_at (randomCell random n) l) eqn:E.
  - intros H. apply IH in H as (k & Hk & Hf & Hn & Hfree & Hbefore).
    exists (S k). repeat split; auto; try lia.
    + rewrite Hf. f_equal. lia.
    + intros j Hj. destruct j as [|j].
      * replace (n + 2 * 0)%nat with n by lia. exact E.
      * replace (n + 2 * S j)%nat with (S (S n) + 2 * j)%nat by lia.
        apply Hbefore. lia.
  - intros H. injection H as <- <-. exists 0%nat. repeat split; try lia.
    + f_equal. lia.
    + exact E.
Qed.

(** The fuel runs out while the drawn cells are taken. *)
Lemma generateFood_waits (fuel n : nat) (l : list Position) :
  (forall k, (k < fuel)%nat ->
             some_at (randomCell random (n + 2 * k)) l = true) ->
  generateFood random fuel n l = None.
Proof.
  revert n. induction fuel as [|fuel IH]; intros n Hall; [reflexivity|].
  cbn [generateFood]. cbv zeta.
  rewrite <- (Nat.add_0_r n) at 1. change 0%nat with (2 * 0)%nat at 1.
  rewrite Hall by lia. apply IH. intros k Hk.
  replace (S (S n) + 2 * k)%nat with (n + 2 * S k)%nat by lia.
  apply Hall. lia.
Qed.

(** Drawn coordinates of the grid make a cell of the grid. *)
Lemma randomCell_in_grid (n : nat) :
  draws_in_grid random -> in_grid (randomCell random n).
Proof. intros Hr. split; apply Hr. Qed.

End Placement.

(** ** The cells of the grid *)

Lemma covers_spec (l : list Position) :
  covers l = true -> forall c, in_grid c -> In c l.
Proof.
  unfold covers, in_grid, GRID_SIZE. intros H c [Hx Hy].
  rewrite forallb_forall in H.
  specialize (H (Z.to_nat (x c))).
  rewrite forallb_forall in H.
  assert (Ha : In (Z.to_nat (x c)) (seq 0 20)) by (apply in_seq; lia).
  assert (Hb : In (Z.to_nat (y c)) (seq 0 20)) by (apply in_seq; lia).
  specialize (H Ha _ Hb). rewrite !Z2Nat.id in H by lia.
  apply some_at_In. destruct c; exact H.
Qed.

Lemma distinctb_NoDup (l : list Position) : distinctb l = true -> NoDup l.
Proof.
  induction l as [|p l IH]; simpl; intros H; constructor;
    apply andb_true_iff in H as [Hp Hl].
  - apply some_at_not_In. destruct (some_at p l); simpl in *; congruence.
  - auto.
Qed.

Lemma tour_NoDup : NoDup tour.
Proof. apply distinctb_NoDup. vm_compute. reflexivity. Qed.

Lemma tour_length : List.length tour = 400%nat.
Proof. vm_compute. reflexivity. Qed.

Lemma tour_in_grid (c : Position) : In c tour -> in_grid c.
Proof.
  assert (H : forallb (fun c => (0 <=? x c) && (x c <? GRID_SIZE)
                                && (0 <=? y c) && (y c <? GRID_SIZE))
                tour = true) by (vm_compute; reflexivity).
  rewrite forallb_forall in H. intros Hin. specialize (H c Hin).
  unfold in_grid. repeat (apply andb_true_iff in H as [H ?]). lia.
Qed.

(** The tour visits every cell of the grid and comes back to its start. *)
Lemma tour_closed :
  covers tour = true
  /\ walk 400 {| x := 10; y := 10 |} = {| x := 10; y := 10 |}.
Proof. split; vm_compute; reflexivity. Qed.

(** A list of fewer than 400 cells leaves a cell of the grid free. *)
Lemma free_cell (l : list Position) :
  (List.length l < 400)%nat -> exists c, in_grid c /\ ~ In c l.
Proof.
  intros Hlen.
  destruct (find (fun c => negb (some_at c l)) tour) as [c|] eqn:E.
  - apply find_some in E as [Hin Hfree]. exists c. split.
    + now apply tour_in_grid.
    + apply some_at_not_In. cbv beta in Hfree.
      destruct (some_at c l); [discriminate | reflexivity].
  - exfalso. assert (Hincl : incl tour l).
    { intros c Hin. apply some_at_In.
      pose proof (find_none _ _ E c Hin) as Hc. cbv beta in Hc.
      destruct (some_at c l); [reflexivity | discriminate]. }
    pose proof (NoDup_incl_length tour_NoDup Hincl) as Hle.
    rewrite tour_length in Hle. lia.
Qed.

(** ** Every event is a transition *)

Lemma handleKeyPress_transition (code : string) (s : State) :
  transition s (handleKeyPress code s).
Proof.
  unfold handleKeyPress, togglePause.
  destruct (gameState s) eqn:Hg; simpl.
  - destruct (String.eqb code "Space" || String.eqb code "Enter");
      [now apply tr_start | apply tr_same].
  - repeat match goal with
           | |- context [if ?b then _ else _] => destruct b
           end;
      try apply tr_same; try (apply tr_turn; auto);
      try (apply tr_reset; congruence); now apply tr_pause.
  - repeat match goal with
           | |- context [if ?b then _ else _] => destruct b
           end;
      try apply tr_same; try (apply tr_turn; auto);
      try (apply tr_reset; congruence); now apply tr_resume.
  - destruct (String.eqb code "KeyR");
      [apply tr_reset; congruence | apply tr_same].
Qed.

(** [moveSnake] by cases, with its three results named. *)
Lemma moveSnake_unfold (random : nat -> Z) (fuel : nat) (s : State) :
  moveSnake random fuel s =
  if negb (GameState_eqb (gameState s) playing) then Some s
  else match snake s with
       | [] => Some s
       | h :: _ =>
           if checkCollision (candidate h (direction s)) (snake s)
           then Some (crashed s)
           else if on_food (candidate h (direction s)) s
           then match generateFood random fuel (draws s)
                        (candidate h (direction s) :: snake s) with
                | Some (newFood, n) => Some (grown h newFood n s)
                | None => None
                end
           else Some (advanced h s)
       end.
Proof.
  unfold moveSnake. cbv zeta.
  destruct (GameState_eqb (gameState s) playing) eqn:Hg; cbn [negb];
    [|reflexivity].
  apply GameState_eqb_eq in Hg.
  destruct (snake s) as [|h t] eqn:Hs; [reflexivity|].
  destruct (checkCollision (candidate h (direction s)) (h :: t)).
  - unfold crashed. destruct (score s >? highScore s) eqn:E.
    + rewrite Z.max_l by lia. reflexivity.
    + rewrite Z.max_r by lia. reflexivity.
  - fold (on_food (candidate h (direction s)) s).
    destruct (on_food (candidate h (direction s)) s); [|now unfold advanced; rewrite Hs].
    destruct (generateFood random fuel (draws s)
                (candidate h (direction s) :: h :: t))
      as [[newFood n]|]; [|reflexivity].
    fold (levelOf (score s + 1)). fold (speedOf (levelOf (score s + 1))).
    unfold grown. rewrite Hs, <- Hg.
    destruct (levelOf (score s + 1) =? level s) eqn:El; cbn [negb];
      [|reflexivity].
    apply Z.eqb_eq in El. rewrite El. reflexivity.
Qed.

Lemma moveSnake_crash (random : nat -> Z) (fuel : nat) (s : State) :
  terminalCollision s = true -> moveSnake random fuel s = Some (crashed s).
Proof.
  unfold terminalCollision. rewrite moveSnake_unfold.
  destruct (GameState_eqb (gameState s) playing); [|discriminate].
  destruct (snake s) as [|h t]; [discriminate|].
  cbn [andb negb]. now intros ->.
Qed.

Lemma moveSnake_advance (random : nat -> Z) (fuel : nat) (s : State) h t :
  gameState s = playing -> snake s = h :: t ->
  checkCollision (candidate h (direction s)) (snake s) = false ->
  on_food (candidate h (direction s)) s = false ->
  moveSnake random fuel s = Some (advanced h s).
Proof.
  intros Hg Hs Hc Hf. rewrite moveSnake_unfold, Hg. cbn [GameState_eqb negb].
  rewrite Hs in *. now rewrite Hc, Hf.
Qed.

Lemma moveSnake_eat (random : nat -> Z) (fuel : nat) (s : State) h t :
  gameState s = playing -> snake s = h :: t ->
  checkCollision (candidate h (direction s)) (snake s) = false ->
  on_food (candidate h (direction s)) s = true ->
  moveSnake random fuel s =
  match generateFood random fuel (draws s)
          (candidate h (direction s) :: snake s) with
  | Some (newFood, n) => Some (grown h newFood n s)
  | None => None
  end.
Proof.
  intros Hg Hs Hc Hf. rewrite moveSnake_unfold, Hg. cbn [GameState_eqb negb].
  rewrite Hs in *. now rewrite Hc, Hf.
Qed.

Lemma moveSnake_transition (random : nat -> Z) (fuel : nat) (s s' : State) :
  moveSnake random fuel s = Some s' -> transition s s'.
Proof.
  rewrite moveSnake_unfold.
  destruct (GameState_eqb (gameState s) playing) eqn:Hg; cbn [negb];
    [|intros H; injection H as <-; apply tr_same].
  apply GameState_eqb_eq in Hg.
  destruct (snake s) as [|h t] eqn:Hs;
    [intros H; injection H as <-; apply tr_same|].
  destruct (checkCollision (candidate h (direction s)) (h :: t)) eqn:Hc.
  - intros H. injection H as <-. apply tr_crash.
    unfold terminalCollision. rewrite Hg, Hs, Hc. reflexivity.
  - destruct (on_food (candidate h (direction s)) s) eqn:Hf.
    + destruct (generateFood random fuel (draws s)
                  (candidate h (direction s) :: h :: t))
        as [[newFood n]|] eqn:Hgen; [|discriminate].
      intros H. injection H as <-.
      apply generateFood_sound in Hgen as [Hfree _].
      apply tr_eat with (t := t); rewrite ?Hs; auto.
    + intros H. injection H as <-.
      apply tr_advance with (t := t); rewrite ?Hs; auto.
Qed.

Lemma dispatch_transition (random : nat -> Z) (fuel : nat) (e : Event)
      (s s' : State) :
  dispatch random fuel e s = Some s' -> transition s s'.
Proof.
  destruct e; simpl.
  - intros H. injection H as <-. apply handleKeyPress_transition.
  - apply moveSnake_transition.
  - intros H. injection H as <-.
    destruct (gameState s) eqn:Hg; simpl; try apply tr_same. now apply tr_start.
  - intros H. injection H as <-. unfold togglePause.
    destruct (gameState s) eqn:Hg; simpl; try apply tr_same;
      [now apply tr_pause | now apply tr_resume].
  - intros H. injection H as <-.
    destruct (gameState s) eqn:Hg; simpl; try apply tr_same;
      apply tr_reset; congruence.
  - intros H. injection H as <-.
    destruct (gameState s) eqn:Hg; simpl; try apply tr_same;
      apply tr_reset; congruence.
Qed.

(** ** What a transition preserves *)


Lemma In_removelast (p : Position) (l : list Position) :
  In p (removelast l) -> In p l.
Proof.
  induction l as [|a l IH]; simpl; [tauto|].
  destruct l as [|b l]; [simpl; tauto|].
  intros [H | H]; [now left | right; apply IH, H].
Qed.

Lemma transition_snake_in_grid (s s' : State) :
  transition s s' ->
  (forall c, In c (snake s) -> in_grid c) ->
  forall c, In c (snake s') -> in_grid c.
Proof.
  intros Ht Hinv. destruct Ht; fields; auto.
  - intros c [<- | []]. unfold in_grid, GRID_SIZE. simpl. lia.
  - match goal with H : checkCollision _ _ = false |- _ =>
      apply checkCollision_false in H as [Hg _] end.
    intros c Hc. apply In_removelast in Hc as [<- | Hc]; auto.
  - match goal with H : checkCollision _ _ = false |- _ =>
      apply checkCollision_false in H as [Hg _] end.
    intros c [<- | Hc]; auto.
Qed.

Lemma transition_food_free (s s' : State) :
  transition s s' -> ~ In (food s) (snake s) -> ~ In (food s') (snake s').
Proof.
  intros Ht Hinv. destruct Ht; fields; auto.
  - intros [Heq | []]. discriminate.
  - match goal with H : on_food _ _ = false |- _ =>
      apply on_food_neq in H end.
    intros Hin. apply In_removelast in Hin as [Heq | Hin]; auto.
  - now apply some_at_not_In.
Qed.

Lemma transition_level (s s' : State) :
  transition s s' -> level s = levelOf (score s) ->
  level s' = levelOf (score s').
Proof. intros Ht Hinv. destruct Ht; fields; auto. Qed.

Lemma transition_speed (s s' : State) :
  transition s s' -> speed s = speedOf (level s) ->
  speed s' = speedOf (level s').
Proof.
  intros Ht Hinv. destruct Ht; fields; auto.
  destruct (levelOf (score s + 1) =? level s) eqn:E; [|reflexivity].
  apply Z.eqb_eq in E. now rewrite E.
Qed.

(** No transition leads back to the menu. *)
Lemma transition_menu (s s' : State) :
  transition s s' -> gameState s' = menu -> s' = s.
Proof.
  intros Ht Hm. destruct Ht; fields; try discriminate; auto.
  - match goal with H : _ \/ _ |- _ => destruct H; congruence end.
  - congruence.
Qed.

(** The high score moves only when the step ends the game with a
    score above it. *)
Lemma transition_highScore (s s' : State) :
  transition s s' -> highScore s' <> highScore s ->
  terminalCollision s = true /\ s' = crashed s
  /\ highScore s < score s /\ highScore s' = score s.
Proof.
  intros Ht Hne. destruct Ht; try (fields; congruence).
  repeat split; auto; fields; lia.
Qed.

(** ** Invariants of the reachable states *)

Section Reachable.

Variable random : nat -> Z.

Lemma reachable_ind_transition (P : State -> Prop) :
  (forall saved, P (mount saved)) ->
  (forall s s', P s -> transition s s' -> P s') ->
  forall s, reachable random s -> P s.
Proof.
  intros Hm Hstep s Hr. induction Hr as [saved | s e fuel s' _ IH Hd].
  - apply Hm.
  - eapply Hstep; [exact IH|]. eapply dispatch_transition, Hd.
Qed.

Lemma reachable_menu (s : State) :
  reachable random s -> gameState s = menu -> exists saved, s = mount saved.
Proof.
  intros Hr. induction Hr as [saved | s e fuel s' Hr IH Hd]; intros Hm.
  - now exists saved.
  - apply dispatch_transition in Hd.
    pose proof (transition_menu _ _ Hd Hm) as ->. auto.
Qed.

End Reachable.

(** ** The concrete sources and states *)

Lemma sweep_in_grid : draws_in_grid sweep.
Proof.
  intros n. unfold sweep, GRID_SIZE. cbv zeta.
  destruct (Nat.even n); apply Z.mod_pos_bound; reflexivity.
Qed.

Lemma stuck_in_grid : draws_in_grid stuck.
Proof. intros n. unfold stuck, GRID_SIZE. lia. Qed.

Lemma run_reachable (random : nat -> Z) (fuel : nat) (es : list Event) :
  forall s s', reachable random s -> run random fuel es s = Some s' ->
               reachable random s'.
Proof.
  induction es as [|e es IH]; simpl; intros s s' Hr Hrun.
  - injection Hrun as <-. exact Hr.
  - destruct (dispatch random fuel e s) as [s1|] eqn:Hd; [|discriminate].
    eapply IH; [|exact Hrun]. eapply reachable_step; eauto.
Qed.

Lemma afterTwoSteps_reachable : reachable sweep afterTwoSteps.
Proof.
  apply (run_reachable sweep 0 twoSteps (mount None));
    [apply reachable_mount | vm_compute; reflexivity].
Qed.

Lemma lucky_in_grid : draws_in_grid lucky.
Proof.
  intros n. unfold lucky, GRID_SIZE. cbv zeta.
  apply Z.mod_pos_bound. reflexivity.
Qed.

Lemma winning_reachable : reachable lucky winning.
Proof.
  apply (run_reachable lucky 1 perfectGame (mount None));
    [apply reachable_mount | vm_compute; reflexivity].
Qed.

(** When the grown snake fills the grid, every drawn cell is taken and
    the step never returns, whatever coordinates of the grid are drawn. *)
Lemma winning_hangs (random : nat -> Z) :
  draws_in_grid random -> forall fuel, moveSnake random fuel winning = None.
Proof.
  intros Hr fuel.
  rewrite (moveSnake_eat random fuel winning {| x := 18; y := 15 |}
             (tl (snake winning)));
    try (vm_compute; reflexivity).
  rewrite generateFood_spins; [reflexivity|].
  intros n. apply some_at_In, covers_spec.
  - vm_compute. reflexivity.
  - now apply randomCell_in_grid.
Qed.

(** * The claims *)

(** ** The simulation step *)

(** C1 (amended).  In a Playing state whose snake has head [h], one step
    tries the cell [h] plus the unit vector of the heading.  If that cell
    is outside the grid or on the snake, the step returns and the game
    is over.  Otherwise, if the cell is not the food, the step returns,
    the cell becomes the head and the tail is removed (same length).  If
    the cell is the food, the placement loop runs inside the step, on
    the grown snake.  A step that returns has put the cell in front and
    kept the tail (one cell more), and its new food is the first drawn
    cell off the grown snake.  The step does not return while the drawn
    cells are on the grown snake, and it does return, from some amount
    of fuel on, once a cell off the grown snake is drawn. *)
Theorem moveSnake_step (random : nat -> Z) (s : State) (h : Position)
        (t : list Position) :
  gameState s = playing -> snake s = h :: t ->
  let head := candidate h (direction s) in
  (x head = x h + x (DIRECTIONS (direction s))
   /\ y head = y h + y (DIRECTIONS (direction s)))
  /\ (~ in_grid head \/ In head (snake s) ->
      forall fuel, exists s',
        moveSnake random fuel s = Some s' /\ gameState s' = gameOver)
  /\ (in_grid head -> ~ In head (snake s) -> head <> food s ->
      forall fuel, exists s',
        moveSnake random fuel s = Some s' /\ gameState s' = playing
        /\ snake s' = head :: removelast (snake s)
        /\ List.length (snake s') = List.length (snake s))
  /\ (in_grid head -> ~ In head (snake s) -> head = food s ->
      (forall fuel s', moveSnake random fuel s = Some s' ->
         gameState s' = playing /\ snake s' = head :: snake s
         /\ List.length (snake s') = S (List.length (snake s))
         /\ ~ In (food s') (head :: snake s)
         /\ exists k, (k < fuel)%nat
              /\ food s' = randomCell random (draws s + 2 * k)
              /\ forall j, (j < k)%nat ->
                   In (randomCell random (draws s + 2 * j)) (head :: snake s))
      /\ (forall fuel,
            (forall k, (k < fuel)%nat ->
               In (randomCell random (draws s + 2 * k)) (head :: snake s)) ->
            moveSnake random fuel s = None)
      /\ ((exists k, ~ In (randomCell random (draws s + 2 * k))
                         (head :: snake s)) ->
          exists fuel0 s', forall fuel, (fuel0 <= fuel)%nat ->
            moveSnake random fuel s = Some s' /\ gameState s' = playing
            /\ snake s' = head :: snake s)).
Proof.
  intros Hg Hs. cbv zeta. split; [split; reflexivity|]. split; [|split].
  - intros Hcol fuel. exists (crashed s). split; [|reflexivity].
    apply moveSnake_crash. unfold terminalCollision.
    rewrite Hg, Hs. cbn [GameState_eqb andb]. rewrite <- Hs.
    now apply checkCollision_true.
  - intros Hin Hfree Hfood fuel. exists (advanced h s).
    split; [|split; [|split]].
    + apply (moveSnake_advance random fuel s h t Hg Hs).
      * apply checkCollision_false. now split.
      * now apply on_food_neq.
    + exact Hg.
    + fields. rewrite Hs. reflexivity.
    + fields. rewrite Hs. clear. revert h.
      induction t as [|a t IH]; intros h; [reflexivity|].
      specialize (IH a). cbn [removelast List.length] in *. now rewrite IH.
  - intros Hin Hfree Hfood.
    assert (Hc : checkCollision (candidate h (direction s)) (snake s) = false)
      by (apply checkCollision_false; now split).
    assert (Hf : on_food (candidate h (direction s)) s = true)
      by now apply on_food_eq.
    pose proof (fun fuel => moveSnake_eat random fuel s h t Hg Hs Hc Hf) as Heq.
    split; [|split].
    + intros fuel s'. rewrite Heq.
      destruct (generateFood random fuel (draws s)
                  (candidate h (direction s) :: snake s))
        as [[newFood n]|] eqn:Hgen; [|discriminate].
      intros H. injection H as <-.
      apply generateFood_exact in Hgen as (k & Hk & Hnew & _ & Hoff & Hbefore).
      split; [reflexivity|]. split; [reflexivity|]. split; [reflexivity|].
      fields. split; [now apply some_at_not_In|].
      exists k. split; [exact Hk|]. split; [exact Hnew|].
      intros j Hj. apply some_at_In. now apply Hbefore.
    + intros fuel Hall. rewrite Heq, generateFood_waits; [reflexivity|].
      intros k Hk. apply some_at_In. now apply Hall.
    + intros [k Hk]. apply some_at_not_In in Hk.
      destruct (generateFood_returns random k (draws s) _ Hk)
        as (newFood & n & Hgen & _).
      exists (S k), (grown h newFood n s). intros fuel Hle.
      rewrite Heq.
      rewrite (generateFood_more_fuel random (S k) fuel _ _ _ Hgen Hle).
      repeat split.
Qed.

(** C10.  A step that detects a terminal collision returns, sets the
    GameState to GameOver and leaves the Snake, the Food, the Score, the
    Level and the TickInterval (and the Heading) as they were; the
    HighScore stays or becomes the Score. *)
Theorem collision_keeps_the_board (random : nat -> Z) (fuel : nat) (s : State) :
  terminalCollision s = true ->
  exists s', moveSnake random fuel s = Some s'
    /\ gameState s' = gameOver
    /\ snake s' = snake s /\ food s' = food s /\ score s' = score s
    /\ level s' = level s /\ speed s' = speed s
    /\ direction s' = direction s
    /\ (highScore s' = highScore s \/ highScore s' = score s).
Proof.
  intros Hc. exists (crashed s). split; [now apply moveSnake_crash|].
  fields. repeat split. lia.
Qed.

(** ** The commands *)

Lemma handleKeyPress_highScore (code : string) (s : State) :
  highScore (handleKeyPress code s) = highScore s.
Proof.
  unfold handleKeyPress, togglePause.
  repeat match goal with
         | |- context [if ?b then _ else _] => destruct b
         end;
    try reflexivity; destruct (gameState s); reflexivity.
Qed.

(** C5.  A direction key that asks for the opposite of the current
    Heading changes nothing: the Heading, and the whole state, stay. *)
Theorem reversal_rejected (s : State) (code : string) (d : Direction) :
  keyDirection code = Some d -> d = opposite (direction s) ->
  direction (handleKeyPress code s) = direction s
  /\ handleKeyPress code s = s.
Proof.
  intros Hk Hd.
  assert (H : handleKeyPress code s = s); [|now rewrite H].
  unfold keyDirection in Hk.
  repeat match type of Hk with
         | (if ?a || ?b then _ else _) = _ =>
             let E1 := fresh "E" in let E2 := fresh "E" in
             destruct a eqn:E1;
             [apply String.eqb_eq in E1|
              destruct b eqn:E2; [apply String.eqb_eq in E2|]];
             cbn [orb] in Hk
         end;
    try discriminate; injection Hk as <-; subst code;
    unfold handleKeyPress, togglePause;
    destruct (gameState s), (direction s); try discriminate; reflexivity.
Qed.

(** C8.  An event changes the HighScore only if it is a step that ends
    in a terminal collision, and such a step sets the HighScore to the
    Score exactly when the Score is strictly greater. *)
Theorem highScore_changes_only_at_collision (random : nat -> Z) (fuel : nat)
        (e : Event) (s s' : State) :
  dispatch random fuel e s = Some s' ->
  (highScore s' <> highScore s -> e = Tick /\ terminalCollision s = true)
  /\ (e = Tick -> terminalCollision s = true ->
      (highScore s < score s -> highScore s' = score s)
      /\ (score s <= highScore s -> highScore s' = highScore s)).
Proof.
  intros Hd. split.
  - intros Hne. split.
    + destruct e; try reflexivity; exfalso; apply Hne;
        simpl in Hd; injection Hd as <-;
        try apply handleKeyPress_highScore; unfold togglePause;
        destruct (gameState s); reflexivity.
    + apply dispatch_transition in Hd.
      now apply (transition_highScore _ _ Hd) in Hne.
  - intros -> Hc. simpl in Hd. rewrite (moveSnake_crash _ _ _ Hc) in Hd.
    injection Hd as <-. fields. lia.
Qed.

(** C2.  In a reachable Menu state, the start key (Space or Enter) or
    the start button gives a Playing state with a snake of the one cell
    (10,10), the Heading RIGHT, the Score 0, the Level 1, the
    TickInterval 150 and the food on (15,15), a cell off the snake. *)
Theorem start_from_menu (random : nat -> Z) (fuel : nat) (e : Event)
        (s : State) :
  reachable random s -> gameState s = menu ->
  e = KeyDown "Space" \/ e = KeyDown "Enter" \/ e = ClickStart ->
  exists s', dispatch random fuel e s = Some s'
    /\ gameState s' = playing
    /\ snake s' = [ {| x := 10; y := 10 |} ]
    /\ direction s' = RIGHT
    /\ score s' = 0 /\ level s' = 1 /\ speed s' = 150
    /\ food s' = {| x := 15; y := 15 |}
    /\ ~ In (food s') (snake s').
Proof.
  intros Hr Hm He. destruct (reachable_menu random s Hr Hm) as [saved ->].
  exists (startGame (mount saved)). split.
  - destruct He as [-> | [-> | ->]]; destruct saved; reflexivity.
  - destruct saved; repeat split; intros [H | []]; discriminate.
Qed.

(** ** Invariants *)

(** C3.  In every reachable state each cell of the Snake has both
    coordinates in 0..19. *)
Theorem snake_in_grid (random : nat -> Z) (s : State) :
  reachable random s ->
  forall c, In c (snake s) -> 0 <= x c < 20 /\ 0 <= y c < 20.
Proof.
  revert s. apply (reachable_ind_transition random
    (fun s => forall c, In c (snake s) -> in_grid c)).
  - intros saved c Hc. destruct saved; destruct Hc as [<- | []];
      unfold in_grid, GRID_SIZE; simpl; lia.
  - intros s s' IH Ht. exact (transition_snake_in_grid s s' Ht IH).
Qed.

(** The food is off the snake in every reachable state. *)
Lemma reachable_food_free (random : nat -> Z) (s : State) :
  reachable random s -> ~ In (food s) (snake s).
Proof.
  revert s. apply reachable_ind_transition.
  - intros saved. destruct saved; intros [H | []]; discriminate.
  - intros s s' IH Ht. exact (transition_food_free s s' Ht IH).
Qed.

(** C4.  In every reachable state that is Playing or Paused, the Food
    cell is none of the cells of the Snake. *)
Theorem food_off_snake (random : nat -> Z) (s : State) :
  reachable random s ->
  gameState s = playing \/ gameState s = paused ->
  forall c, In c (snake s) -> c <> food s.
Proof.
  intros Hr _ c Hc ->. exact (reachable_food_free random s Hr Hc).
Qed.

(** C6.  In every reachable state the Level is floor(Score / 5) + 1.  In
    any state, a step that does not eat returns and leaves the Score
    alone, and a step that eats the food adds exactly 1 to the Score:
    every result it returns has the Score plus 1 (and the Level of that
    Score), and it does return such a result, from some amount of fuel
    on, once the placement loop draws a cell off the grown snake. *)
Theorem level_follows_score (random : nat -> Z) (s : State) :
  (reachable random s -> level s = score s / 5 + 1)
  /\ (forall fuel s', moveSnake random fuel s = Some s' ->
       score s' = if eatsFood s then score s + 1 else score s)
  /\ (eatsFood s = false ->
      forall fuel, exists s',
        moveSnake random fuel s = Some s' /\ score s' = score s)
  /\ (eatsFood s = true ->
      forall h t, snake s = h :: t ->
      (exists k, ~ In (randomCell random (draws s + 2 * k))
                      (candidate h (direction s) :: snake s)) ->
      exists fuel0 s', forall fuel, (fuel0 <= fuel)%nat ->
        moveSnake random fuel s = Some s' /\ score s' = score s + 1
        /\ level s' = (score s + 1) / 5 + 1).
Proof.
  split; [|split; [|split]].
  - revert s. apply reachable_ind_transition.
    + intros saved. destruct saved; reflexivity.
    + intros s s' IH Ht. exact (transition_level s s' Ht IH).
  - intros fuel s'. rewrite moveSnake_unfold. unfold eatsFood.
    destruct (GameState_eqb (gameState s) playing); cbn [negb andb];
      [|intros H; injection H as <-; reflexivity].
    destruct (snake s) as [|h t]; [intros H; injection H as <-; reflexivity|].
    destruct (checkCollision (candidate h (direction s)) (h :: t));
      cbn [negb andb]; [intros H; injection H as <-; reflexivity|].
    destruct (on_food (candidate h (direction s)) s);
      [|intros H; injection H as <-; reflexivity].
    destruct (generateFood random fuel (draws s)
                (candidate h (direction s) :: h :: t)) as [[newFood n]|];
      [|discriminate].
    intros H; injection H as <-; reflexivity.
  - intros He fuel. rewrite moveSnake_unfold. unfold eatsFood in He.
    destruct (GameState_eqb (gameState s) playing); cbn [negb andb] in *;
      [|now exists s].
    destruct (snake s) as [|h t]; [now exists s|].
    destruct (checkCollision (candidate h (direction s)) (h :: t));
      cbn [negb andb] in *; [now exists (crashed s)|].
    rewrite He. now exists (advanced h s).
  - intros He h t Hs [k Hk]. unfold eatsFood in He. rewrite Hs in He.
    apply andb_true_iff in He as [Hg He]. apply andb_true_iff in He as [Hc Hf].
    apply GameState_eqb_eq in Hg. apply negb_true_iff in Hc.
    rewrite <- Hs in Hc.
    apply some_at_not_In in Hk.
    destruct (generateFood_returns random k (draws s) _ Hk)
      as (newFood & n & Hgen & _).
    exists (S k), (grown h newFood n s). intros fuel Hle.
    rewrite (moveSnake_eat random fuel s h t Hg Hs Hc Hf).
    rewrite (generateFood_more_fuel random (S k) fuel _ _ _ Hgen Hle).
    repeat split.
Qed.

(** C7.  In every reachable state the TickInterval is
    max(50, 150 - (Level - 1) * 10), hence never below 50. *)
Theorem speed_follows_level (random : nat -> Z) (s : State) :
  reachable random s ->
  speed s = Z.max 50 (150 - (level s - 1) * 10) /\ 50 <= speed s.
Proof.
  intros Hr.
  assert (H : speed s = speedOf (level s)).
  { revert s Hr. apply reachable_ind_transition.
    - intros saved. destruct saved; reflexivity.
    - intros s s' IH Ht. exact (transition_speed s s' Ht IH). }
  unfold speedOf, MIN_SPEED, INITIAL_SPEED, SPEED_INCREASE in H.
  split; [exact H | lia].
Qed.

(** ** Food placement *)

(** C9 (amended).  For a snake of fewer than 400 cells there is a cell
    of the grid that is not on the snake, and the placement loop
    returns, from some amount of fuel on, a cell that is not on the
    snake as soon as one of its iterations draws such a cell; while
    every iteration draws a cell of the snake, it never returns. *)
Theorem generateFood_terminates (random : nat -> Z) (n : nat)
        (snakePositions : list Position) :
  (List.length snakePositions < 400)%nat ->
  (exists c, in_grid c /\ ~ In c snakePositions)
  /\ ((exists k, ~ In (randomCell random (n + 2 * k)) snakePositions) ->
      exists fuel0 newFood n',
        (forall fuel, (fuel0 <= fuel)%nat ->
           generateFood random fuel n snakePositions = Some (newFood, n'))
        /\ ~ In newFood snakePositions)
  /\ ((forall k, In (randomCell random (n + 2 * k)) snakePositions) ->
      forall fuel, generateFood random fuel n snakePositions = None).
Proof.
  intros Hlen. split; [now apply free_cell|]. split.
  - intros [k Hk]. apply some_at_not_In in Hk.
    destruct (generateFood_returns random k n _ Hk)
      as (newFood & n' & Hgen & Hnew).
    exists (S k), newFood, n'. split.
    + intros fuel Hle.
      exact (generateFood_more_fuel random _ _ _ _ _ Hgen Hle).
    + now apply some_at_not_In.
  - intros Hall fuel. apply generateFood_waits.
    intros k _. apply some_at_In, Hall.
Qed.

(** * The claims on concrete games *)

Lemma afterEating_reachable : reachable sweep afterEating.
Proof.
  apply (run_reachable sweep 1 eatOnce (mount (Some 3)));
    [apply reachable_mount | vm_compute; reflexivity].
Qed.

(** The step of [aboutToEat]: the head (14,15) moves right onto the food
    (15,15); the first draw of [sweep] is the free cell (0,0). *)
Lemma moveSnake_step_witness :
  gameState aboutToEat = playing
  /\ exists fuel0 s', forall fuel, (fuel0 <= fuel)%nat ->
       moveSnake sweep fuel aboutToEat = Some s' /\ gameState s' = playing
       /\ snake s' = {| x := 15; y := 15 |} :: snake aboutToEat.
Proof.
  split; [reflexivity|].
  destruct (moveSnake_step sweep aboutToEat {| x := 14; y := 15 |}
              [ {| x := 13; y := 15 |}; {| x := 12; y := 15 |} ]
              eq_refl eq_refl) as (_ & _ & _ & Heat).
  apply Heat.
  - unfold in_grid, GRID_SIZE. simpl. lia.
  - apply some_at_not_In. reflexivity.
  - reflexivity.
  - exists 0%nat. apply some_at_not_In. vm_compute. reflexivity.
Defined.

(** C1 as stated fails on [winning], a state that a player who follows
    the tour reaches: it is Playing, the cell in front of the head is in
    the grid, off the 399 cells of the snake and is the food, and the
    step never returns a state, so nothing is prepended. *)
Lemma moveSnake_full_grid_never_returns :
  reachable lucky winning
  /\ gameState winning = playing
  /\ snake winning = {| x := 18; y := 15 |} :: tl (snake winning)
  /\ List.length (snake winning) = 399%nat
  /\ in_grid (candidate {| x := 18; y := 15 |} (direction winning))
  /\ ~ In (candidate {| x := 18; y := 15 |} (direction winning))
          (snake winning)
  /\ candidate {| x := 18; y := 15 |} (direction winning) = food winning
  /\ draws_in_grid lucky
  /\ ~ (exists fuel s', moveSnake lucky fuel winning = Some s').
Proof.
  split; [exact winning_reachable|].
  split; [reflexivity|]. split; [vm_compute; reflexivity|].
  split; [vm_compute; reflexivity|].
  split; [unfold in_grid, GRID_SIZE; simpl; lia|].
  split; [apply some_at_not_In; vm_compute; reflexivity|].
  split; [reflexivity|]. split; [exact lucky_in_grid|].
  intros (fuel & s' & H).
  rewrite (winning_hangs lucky lucky_in_grid) in H. discriminate.
Qed.

(** The step of [atTheWall] leaves the grid on the left: the board
    stays and the high score 5 becomes the score 7. *)
Lemma collision_keeps_the_board_witness :
  terminalCollision atTheWall = true
  /\ exists s', moveSnake sweep 0 atTheWall = Some s'
       /\ gameState s' = gameOver
       /\ snake s' = snake atTheWall /\ food s' = food atTheWall
       /\ score s' = 7 /\ level s' = 2 /\ speed s' = 140
       /\ direction s' = LEFT
       /\ (highScore s' = 5 \/ highScore s' = 7).
Proof.
  split; [reflexivity|].
  exact (collision_keeps_the_board sweep 0 atTheWall eq_refl).
Defined.

(** Heading LEFT, the key D asks for RIGHT and is ignored. *)
Lemma reversal_rejected_witness :
  keyDirection "KeyD" = Some RIGHT
  /\ direction (handleKeyPress "KeyD" atTheWall) = LEFT
  /\ handleKeyPress "KeyD" atTheWall = atTheWall.
Proof.
  split; [reflexivity|].
  exact (reversal_rejected atTheWall "KeyD" RIGHT eq_refl eq_refl).
Defined.

(** The step of [atTheWall] is a terminal collision with the score 7
    above the high score 5. *)
Lemma highScore_changes_only_at_collision_witness :
  dispatch sweep 0 Tick atTheWall = Some (crashed atTheWall)
  /\ (highScore (crashed atTheWall) <> highScore atTheWall ->
      Tick = Tick /\ terminalCollision atTheWall = true)
  /\ (Tick = Tick -> terminalCollision atTheWall = true ->
      (highScore atTheWall < score atTheWall ->
       highScore (crashed atTheWall) = score atTheWall)
      /\ (score atTheWall <= highScore atTheWall ->
          highScore (crashed atTheWall) = highScore atTheWall)).
Proof.
  split; [reflexivity|].
  exact (highScore_changes_only_at_collision sweep 0 Tick atTheWall
           (crashed atTheWall) eq_refl).
Defined.

(** A returning visitor with the stored high score 7 presses Space. *)
Lemma start_from_menu_witness :
  gameState (mount (Some 7)) = menu
  /\ exists s', dispatch sweep 0 (KeyDown "Space") (mount (Some 7)) = Some s'
       /\ gameState s' = playing
       /\ snake s' = [ {| x := 10; y := 10 |} ]
       /\ direction s' = RIGHT
       /\ score s' = 0 /\ level s' = 1 /\ speed s' = 150
       /\ food s' = {| x := 15; y := 15 |}
       /\ ~ In (food s') (snake s').
Proof.
  split; [reflexivity|].
  apply (start_from_menu sweep 0 (KeyDown "Space") (mount (Some 7))).
  - apply reachable_mount.
  - reflexivity.
  - left. reflexivity.
Defined.

Lemma snake_in_grid_witness :
  reachable sweep afterEating
  /\ forall c, In c [ {| x := 15; y := 15 |}; {| x := 15; y := 14 |} ] ->
       0 <= x c < 20 /\ 0 <= y c < 20.
Proof.
  split; [exact afterEating_reachable|].
  exact (snake_in_grid sweep afterEating afterEating_reachable).
Defined.

Lemma food_off_snake_witness :
  gameState afterEating = playing
  /\ forall c, In c (snake afterEating) -> c <> {| x := 0; y := 0 |}.
Proof.
  split; [reflexivity|].
  exact (food_off_snake sweep afterEating afterEating_reachable
           (or_introl eq_refl)).
Defined.

Lemma beforeEating_reachable : reachable sweep beforeEating.
Proof.
  apply (run_reachable sweep 0 approach (mount (Some 3)));
    [apply reachable_mount | vm_compute; reflexivity].
Qed.

(** The step of [beforeEating] eats: the score goes from 0 to 1. *)
Lemma level_follows_score_witness :
  reachable sweep beforeEating
  /\ eatsFood beforeEating = true
  /\ level beforeEating = score beforeEating / 5 + 1
  /\ exists fuel0 s', forall fuel, (fuel0 <= fuel)%nat ->
       moveSnake sweep fuel beforeEating = Some s' /\ score s' = 0 + 1
       /\ level s' = (0 + 1) / 5 + 1.
Proof.
  split; [exact beforeEating_reachable|]. split; [reflexivity|].
  destruct (level_follows_score sweep beforeEating)
    as (Hlevel & _ & _ & Heat).
  split; [exact (Hlevel beforeEating_reachable)|].
  apply (Heat eq_refl {| x := 15; y := 14 |} []); [reflexivity|].
  exists 0%nat. apply some_at_not_In. vm_compute. reflexivity.
Defined.

Lemma speed_follows_level_witness :
  speed afterTwoSteps = Z.max 50 (150 - (level afterTwoSteps - 1) * 10)
  /\ 50 <= speed afterTwoSteps.
Proof.
  exact (speed_follows_level sweep afterTwoSteps afterTwoSteps_reachable).
Defined.

(** The first draw of [sweep], (0,0), is off the three cells of
    [aboutToEat]: the loop returns. *)
Lemma generateFood_terminates_witness :
  (List.length (snake aboutToEat) < 400)%nat
  /\ exists fuel0 newFood n',
       (forall fuel, (fuel0 <= fuel)%nat ->
          generateFood sweep fuel 0 (snake aboutToEat) = Some (newFood, n'))
       /\ ~ In newFood (snake aboutToEat).
Proof.
  assert (Hlen : (List.length (snake aboutToEat) < 400)%nat) by (simpl; lia).
  split; [exact Hlen|].
  destruct (generateFood_terminates sweep 0 (snake aboutToEat) Hlen)
    as (_ & Hreturns & _).
  apply Hreturns. exists 0%nat. apply some_at_not_In. vm_compute. reflexivity.
Defined.

(** C9 as stated fails when every call of [Math.random()] returns 0,
    so that every drawn coordinate is 0: the snake has one cell, (0,0),
    every iteration draws (0,0), and the loop never returns. *)
Lemma generateFood_stuck_never_returns :
  (List.length [ {| x := 0; y := 0 |} ] < 400)%nat
  /\ draws_in_grid stuck
  /\ ~ (exists fuel newFood n',
          generateFood stuck fuel 0 [ {| x := 0; y := 0 |} ]
          = Some (newFood, n')).
Proof.
  split; [simpl; lia|]. split; [exact stuck_in_grid|].
  intros (fuel & newFood & n' & H).
  rewrite generateFood_spins in H; [discriminate|].
  intros n. reflexivity.
Qed.

(** * Further properties of the code *)

(** ** More invariants of the transitions *)

Lemma NoDup_removelast (l : list Position) : NoDup l -> NoDup (removelast l).
Proof.
  induction l as [|a l IH]; [auto|]. intros H. inversion H as [|? ? Ha Hl]; subst.
  destruct l as [|b l]; [constructor|].
  change (NoDup (a :: removelast (b :: l))). constructor; [|auto].
  intros Hin. apply Ha. now apply In_removelast.
Qed.

Lemma length_removelast_cons (a : Position) (l : list Position) :
  List.length (removelast (a :: l)) = List.length l.
Proof.
  revert a. induction l as [|b l IH]; intros a; [reflexivity|].
  change (S (List.length (removelast (b :: l))) = S (List.length l)).
  now rewrite IH.
Qed.

Lemma connected_removelast (l : list Position) :
  connected l = true -> connected (removelast l) = true.
Proof.
  induction l as [|a l IH]; [auto|]. destruct l as [|b l]; [auto|].
  intros H. change (adjacent a b && connected (b :: l) = true) in H.
  apply andb_true_iff in H as [Hab Hl]. specialize (IH Hl).
  destruct l as [|c l]; [reflexivity|].
  change (adjacent a b && connected (removelast (b :: c :: l)) = true).
  now rewrite Hab, IH.
Qed.

Lemma candidate_adjacent (h : Position) (d : Direction) :
  adjacent (candidate h d) h = true.
Proof. unfold adjacent. destruct d; simpl; apply Z.eqb_eq; lia. Qed.

Lemma transition_NoDup (s s' : State) :
  transition s s' -> NoDup (snake s) -> NoDup (snake s').
Proof.
  intros Ht Hinv. destruct Ht; fields; auto.
  - constructor; [intros []|constructor].
  - apply NoDup_removelast. constructor; [|exact Hinv].
    match goal with H : checkCollision _ _ = false |- _ =>
      apply checkCollision_false in H as [_ Hn] end. exact Hn.
  - constructor; [|exact Hinv].
    match goal with H : checkCollision _ _ = false |- _ =>
      apply checkCollision_false in H as [_ Hn] end. exact Hn.
Qed.

Lemma transition_connected (s s' : State) :
  transition s s' -> connected (snake s) = true -> connected (snake s') = true.
Proof.
  intros Ht Hinv. destruct Ht; fields; auto.
  - apply connected_removelast.
    match goal with H : snake _ = _ :: _ |- _ => rewrite H in * end.
    change (adjacent (candidate h (direction s)) h && connected (h :: t) = true).
    now rewrite candidate_adjacent, Hinv.
  - match goal with H : snake _ = _ :: _ |- _ => rewrite H in * end.
    change (adjacent (candidate h (direction s)) h && connected (h :: t) = true).
    now rewrite candidate_adjacent, Hinv.
Qed.

Lemma transition_score_length (s s' : State) :
  transition s s' ->
  Z.of_nat (List.length (snake s)) = score s + 1 ->
  Z.of_nat (List.length (snake s')) = score s' + 1.
Proof.
  intros Ht Hinv. destruct Ht; fields; auto.
  - now rewrite length_removelast_cons.
  - cbn [List.length]. lia.
Qed.

Section MoreInvariants.

Variable random : nat -> Z.

Lemma reachable_cells_in_grid (s : State) :
  reachable random s -> forall c, In c (snake s) -> in_grid c.
Proof.
  revert s. apply (reachable_ind_transition random
    (fun s => forall c, In c (snake s) -> in_grid c)).
  - intros saved c Hc. destruct saved; destruct Hc as [<- | []];
      unfold in_grid, GRID_SIZE; simpl; lia.
  - intros s s' IH Ht. exact (transition_snake_in_grid s s' Ht IH).
Qed.

Lemma reachable_NoDup (s : State) : reachable random s -> NoDup (snake s).
Proof.
  revert s. apply reachable_ind_transition.
  - intros saved. destruct saved; (constructor; [intros []|constructor]).
  - intros s s' IH Ht. exact (transition_NoDup s s' Ht IH).
Qed.

Lemma reachable_score_length (s : State) :
  reachable random s -> Z.of_nat (List.length (snake s)) = score s + 1.
Proof.
  revert s. apply reachable_ind_transition.
  - intros saved. destruct saved; reflexivity.
  - intros s s' IH Ht. exact (transition_score_length s s' Ht IH).
Qed.

Lemma reachable_length_le (s : State) :
  reachable random s -> (List.length (snake s) <= 400)%nat.
Proof.
  intros Hr. rewrite <- tour_length.
  apply NoDup_incl_length; [now apply reachable_NoDup|].
  intros c Hc. apply covers_spec; [apply tour_closed|].
  now apply (reachable_cells_in_grid s Hr).
Qed.

Lemma reachable_level (s : State) :
  reachable random s -> level s = levelOf (score s).
Proof.
  revert s. apply reachable_ind_transition.
  - intros saved. destruct saved; reflexivity.
  - intros s s' IH Ht. exact (transition_level s s' Ht IH).
Qed.

Lemma reachable_speed (s : State) :
  reachable random s -> speed s = speedOf (level s).
Proof.
  revert s. apply reachable_ind_transition.
  - intros saved. destruct saved; reflexivity.
  - intros s s' IH Ht. exact (transition_speed s s' Ht IH).
Qed.

Lemma reachable_length_ge (s : State) :
  reachable random s -> (1 <= List.length (snake s))%nat.
Proof.
  revert s. apply reachable_ind_transition.
  - intros saved. destruct saved; simpl; lia.
  - intros s s' IH Ht. destruct Ht; fields; auto; cbn [List.length]; try lia.
    rewrite length_removelast_cons. exact IH.
Qed.

End MoreInvariants.

(** ** The body of the snake *)

(** X1.  In every reachable state the cells of the snake are pairwise
    distinct. *)
Theorem snake_cells_distinct (random : nat -> Z) (s : State) :
  reachable random s -> NoDup (snake s).
Proof.
  revert s. apply reachable_ind_transition.
  - intros saved. destruct saved; (constructor; [intros []|constructor]).
  - intros s s' IH Ht. apply (transition_NoDup s s' Ht).
    exact IH.
Qed.

(** X2.  In every reachable state each cell of the snake is side by
    side with the next one: the snake is one connected path. *)
Theorem snake_is_a_path (random : nat -> Z) (s : State) :
  reachable random s -> connected (snake s) = true.
Proof.
  revert s. apply reachable_ind_transition.
  - intros saved. destruct saved; reflexivity.
  - intros s s' IH Ht. exact (transition_connected s s' Ht IH).
Qed.

(** X3.  In every reachable state the snake has between 1 and 400
    cells, and the score is its length minus one (the LENGTH box shows
    SCORE + 1), so the score lies between 0 and 399. *)
Theorem score_is_length_minus_one (random : nat -> Z) (s : State) :
  reachable random s ->
  (1 <= List.length (snake s) <= 400)%nat
  /\ score s = Z.of_nat (List.length (snake s)) - 1
  /\ 0 <= score s <= 399.
Proof.
  intros Hr. pose proof (reachable_score_length random s Hr) as Hs.
  pose proof (reachable_length_le random s Hr) as Hl.
  pose proof (reachable_length_ge random s Hr) as Hpos.
  repeat split; lia.
Qed.

(** ** Pause, reset and the keys *)

Lemma run_ticks_not_playing (random : nat -> Z) (fuel n : nat) (s : State) :
  gameState s <> playing -> run random fuel (repeat Tick n) s = Some s.
Proof.
  intros Hg. induction n as [|n IH]; [reflexivity|].
  cbn [repeat run dispatch]. rewrite moveSnake_unfold.
  destruct (GameState_eqb (gameState s) playing) eqn:E;
    [apply GameState_eqb_eq in E; contradiction|].
  cbn [negb]. exact IH.
Qed.

Lemma run_app (random : nat -> Z) (fuel : nat) (es1 es2 : list Event) :
  forall s s1, run random fuel es1 s = Some s1 ->
               run random fuel (es1 ++ es2) s = run random fuel es2 s1.
Proof.
  induction es1 as [|e es1 IH]; intros s s1; cbn [run app].
  - now intros [= ->].
  - destruct (dispatch random fuel e s) as [s0|]; [apply IH | discriminate].
Qed.

(** X4.  A paused game is frozen: from a Playing state, the pause
    command (the key Space or the pause button), any number of calls of
    the step, and the pause command again give back exactly the state
    of before. *)
Theorem pause_freezes_the_game (random : nat -> Z) (fuel n : nat) (s : State)
        (pause : Event) :
  gameState s = playing ->
  pause = KeyDown "Space" \/ pause = ClickPause ->
  run random fuel (pause :: repeat Tick n ++ [pause]) s = Some s.
Proof.
  intros Hg Hp.
  assert (H1 : dispatch random fuel pause s = Some (setGameState paused s)).
  { destruct Hp as [-> | ->]; cbn [dispatch]; unfold handleKeyPress, togglePause;
      rewrite Hg; reflexivity. }
  assert (H2 : dispatch random fuel pause (setGameState paused s) = Some s).
  { destruct Hp as [-> | ->]; cbn [dispatch]; unfold handleKeyPress, togglePause;
      fields; cbn; destruct s; cbn in Hg; subst; reflexivity. }
  cbn [run]. rewrite H1.
  rewrite (run_app random fuel (repeat Tick n) [pause] _ (setGameState paused s)).
  - cbn [run]. now rewrite H2.
  - apply run_ticks_not_playing. fields. discriminate.
Qed.

(** Reset forgets the game in progress: from any state it gives the
    state that a page load with the same high score gives after the
    start key, the count of random calls apart. *)
Lemma resetGame_is_a_fresh_start (s : State) :
  resetGame s = setDraws (draws s) (startGame (mount (Some (highScore s)))).
Proof. reflexivity. Qed.

Lemma keyDirection_cases (code : string) (d : Direction) :
  keyDirection code = Some d ->
  code = keyOf d
  \/ code = (match d with
             | UP => "KeyW" | DOWN => "KeyS" | LEFT => "KeyA" | RIGHT => "KeyD"
             end)%string.
Proof.
  unfold keyDirection. intros Hk.
  repeat match type of Hk with
         | (if ?a || ?b then _ else _) = _ =>
             let E1 := fresh "E" in let E2 := fresh "E" in
             destruct a eqn:E1;
             [apply String.eqb_eq in E1|
              destruct b eqn:E2; [apply String.eqb_eq in E2|]];
             cbn [orb] in Hk
         end;
    try discriminate; injection Hk as <-; subst code; auto.
Qed.

Lemma handleKeyPress_turn (code : string) (d : Direction) (s : State) :
  gameState s = playing \/ gameState s = paused ->
  keyDirection code = Some d -> d <> opposite (direction s) ->
  handleKeyPress code s = setDirection d s.
Proof.
  intros Hg Hk Hd. apply keyDirection_cases in Hk.
  unfold handleKeyPress.
  destruct Hg as [Hg | Hg]; rewrite Hg; cbn [GameState_eqb andb orb];
    destruct Hk as [-> | ->]; destruct d; cbn;
    destruct (direction s); cbn in *; congruence.
Qed.

(** X5.  While Playing or Paused, a direction key that does not ask for
    the opposite of the current Heading sets the Heading and changes
    nothing else; this holds in a paused game too. *)
Theorem turn_accepted (code : string) (d : Direction) (s : State) :
  gameState s = playing \/ gameState s = paused ->
  keyDirection code = Some d -> d <> opposite (direction s) ->
  handleKeyPress code s = setDirection d s
  /\ direction (handleKeyPress code s) = d.
Proof.
  intros Hg Hk Hd. rewrite (handleKeyPress_turn code d s Hg Hk Hd).
  split; reflexivity.
Qed.

(** X6.  The guard against reversal looks at the Heading last set, not
    at the Heading of the last step.  In a Playing state whose second
    cell lies behind the head, a key for a sideways direction followed
    by a key for the opposite direction reverses the Heading, and the
    next step runs the head into the second cell: the game is over. *)
Theorem two_keys_reverse_the_snake (random : nat -> Z) (fuel : nat) (s : State)
        (h n : Position) (t : list Position) (k1 k2 : string) (p : Direction) :
  gameState s = playing ->
  snake s = h :: n :: t ->
  n = candidate h (opposite (direction s)) ->
  keyDirection k1 = Some p ->
  p <> direction s -> p <> opposite (direction s) ->
  keyDirection k2 = Some (opposite (direction s)) ->
  direction (handleKeyPress k2 (handleKeyPress k1 s)) = opposite (direction s)
  /\ exists s', moveSnake random fuel (handleKeyPress k2 (handleKeyPress k1 s))
                = Some s'
                /\ gameState s' = gameOver.
Proof.
  intros Hg Hs Hn Hk1 Hp1 Hp2 Hk2.
  rewrite (handleKeyPress_turn k1 p s (or_introl Hg) Hk1 Hp2).
  rewrite (handleKeyPress_turn k2 (opposite (direction s)) (setDirection p s));
    fields; auto.
  - split; [reflexivity|].
    exists (crashed (setDirection (opposite (direction s)) (setDirection p s))).
    split; [|reflexivity].
    apply moveSnake_crash. unfold terminalCollision. fields.
    rewrite Hg, Hs. cbn [GameState_eqb andb].
    apply checkCollision_true. right. rewrite <- Hn. right. now left.
  - destruct p, (direction s); cbn in *; congruence.
Qed.

(** X7.  Keys that mean nothing in the current state change nothing:
    in the Menu every key but Space and Enter, in GameOver every key but
    R, and while Playing or Paused every key that is neither Space, R
    nor a direction key. *)
Theorem other_keys_are_ignored (code : string) (s : State) :
  (gameState s = menu -> code <> "Space"%string -> code <> "Enter"%string ->
   handleKeyPress code s = s)
  /\ (gameState s = gameOver -> code <> "KeyR"%string -> handleKeyPress code s = s)
  /\ (gameState s = playing \/ gameState s = paused ->
      code <> "Space"%string -> code <> "KeyR"%string -> keyDirection code = None ->
      handleKeyPress code s = s).
Proof.
  unfold handleKeyPress, keyDirection. split; [|split].
  - intros -> H1 H2. apply String.eqb_neq in H1, H2.
    cbn [GameState_eqb andb orb]. now rewrite H1, H2.
  - intros -> H1. apply String.eqb_neq in H1.
    cbn [GameState_eqb andb orb]. now rewrite H1.
  - intros Hg H1 H2 Hk. apply String.eqb_neq in H1, H2.
    destruct Hg as [-> | ->]; cbn [GameState_eqb andb orb]; rewrite H1, H2;
      repeat match type of Hk with
             | (if ?c then _ else _) = _ => destruct c; [discriminate|]
             end; reflexivity.
Qed.

(** ** The state machine and the high score *)

(** X8.  The moves of the GameState: an event leaves it alone or goes
    Menu to Playing, Playing to Paused, Paused to Playing, Playing to
    GameOver or GameOver to Playing.  So nothing leads back to the Menu,
    a paused game never ends, and a game that is over stays over until
    it is reset. *)
Theorem gameState_moves (random : nat -> Z) (fuel : nat) (e : Event)
        (s s' : State) :
  dispatch random fuel e s = Some s' ->
  gameState s' = gameState s
  \/ (gameState s = menu /\ gameState s' = playing)
  \/ (gameState s = playing /\ gameState s' = paused)
  \/ (gameState s = paused /\ gameState s' = playing)
  \/ (gameState s = playing /\ gameState s' = gameOver)
  \/ (gameState s = gameOver /\ gameState s' = playing).
Proof.
  intros Hd. apply dispatch_transition in Hd. destruct Hd; fields; auto 10.
  - destruct (gameState s); auto 10; contradiction.
  - match goal with H : terminalCollision _ = true |- _ =>
      unfold terminalCollision in H; apply andb_true_iff in H as [H _];
      apply GameState_eqb_eq in H end. auto 10.
Qed.

Lemma transition_highScore_le (s s' : State) :
  transition s s' -> highScore s <= highScore s'.
Proof. intros Ht. destruct Ht; fields; lia. Qed.

Lemma run_highScore_le (random : nat -> Z) (fuel : nat) (es : list Event) :
  forall s s', run random fuel es s = Some s' -> highScore s <= highScore s'.
Proof.
  induction es as [|e es IH]; intros s s'; cbn [run].
  - intros [= ->]. lia.
  - destruct (dispatch random fuel e s) as [s1|] eqn:Hd; [|discriminate].
    intros Hrun. apply dispatch_transition, transition_highScore_le in Hd.
    apply IH in Hrun. lia.
Qed.

(** X9.  Let the page mount on a stored item that is absent, empty or
    parses to an integer.  Then, after any events, the HighScore is at
    least the one of the mount, no further event lowers it, and where
    the game is over the Score is at most the HighScore.  (On an item
    that [parseInt] turns into NaN no comparison with the HighScore
    holds; such a session is not covered.) *)
Theorem highScore_never_decreases (parseInt : string -> option Z)
        (item : option string) (random : nat -> Z) (fuel : nat)
        (es : list Event) (s0 s : State) :
  mountStored parseInt item = Some s0 ->
  run random fuel es s0 = Some s ->
  (gameState s = gameOver -> score s <= highScore s)
  /\ highScore s0 <= highScore s
  /\ forall fuel' e s', dispatch random fuel' e s = Some s' ->
       highScore s <= highScore s'.
Proof.
  intros Hm Hrun.
  assert (Hr : reachable random s).
  { apply (run_reachable random fuel es s0 s); [|exact Hrun].
    unfold mountStored in Hm. destruct item as [str|].
    - destruct (String.eqb str "");
        [injection Hm as <-; apply (reachable_mount random None)|].
      destruct (parseInt str) as [n|]; [|discriminate].
      injection Hm as <-. apply (reachable_mount random (Some n)).
    - injection Hm as <-. apply (reachable_mount random None). }
  split; [|split].
  - clear Hrun Hm. revert s Hr. apply (reachable_ind_transition random
      (fun s => gameState s = gameOver -> score s <= highScore s)).
    + intros saved. destruct saved; discriminate.
    + intros s s' IH Ht. destruct Ht; fields; auto; try discriminate;
        try congruence.
      intros _. lia.
  - exact (run_highScore_le random fuel es s0 s Hrun).
  - intros fuel' e s' Hd.
    now apply dispatch_transition, transition_highScore_le in Hd.
Qed.

(** X10.  After a terminal collision the banner "NEW HIGH SCORE" is
    shown exactly when the score is positive and at least the high
    score of before: it is shown on a tie, where the high score has
    not changed. *)
Theorem banner_after_collision (random : nat -> Z) (fuel : nat) (s : State) :
  terminalCollision s = true ->
  exists s', moveSnake random fuel s = Some s'
    /\ (newHighScoreBanner s' = true <-> 0 < score s /\ highScore s <= score s).
Proof.
  intros Hc. exists (crashed s). split; [now apply moveSnake_crash|].
  unfold newHighScoreBanner. fields. cbn [GameState_eqb andb].
  rewrite andb_true_iff, Z.eqb_eq. split.
  - intros [H1 H2]. lia.
  - intros [H1 H2]. split; [lia|]. apply Z.gtb_lt. lia.
Qed.

(** ** Food *)

(** X11.  When the loop of [generateFood] returns, it returns the first
    drawn cell that is off the snake: the cells drawn before it were on
    the snake, and two random numbers were used per iteration. *)
Theorem generateFood_first_free (random : nat -> Z) (fuel n : nat)
        (l : list Position) (newFood : Position) (n' : nat) :
  generateFood random fuel n l = Some (newFood, n') ->
  exists k, (k < fuel)%nat
    /\ newFood = randomCell random (n + 2 * k)
    /\ n' = (n + 2 * k + 2)%nat
    /\ ~ In newFood l
    /\ forall j, (j < k)%nat -> In (randomCell random (n + 2 * j)) l.
Proof.
  revert n. induction fuel as [|fuel IH]; intros n; [discriminate|].
  cbn [generateFood]. cbv zeta.
  destruct (some_at (randomCell random n) l) eqn:E.
  - intros H. apply IH in H as (k & Hk & Hf & Hn & Hfree & Hbefore).
    exists (S k). repeat split; auto; try lia.
    + rewrite Hf. f_equal. lia.
    + intros j Hj. destruct j as [|j].
      * replace (n + 2 * 0)%nat with n by lia. now apply some_at_In.
      * replace (n + 2 * S j)%nat with (S (S n) + 2 * j)%nat by lia.
        apply Hbefore. lia.
  - intros H. injection H as <- <-. exists 0%nat. repeat split; try lia.
    + f_equal. lia.
    + now apply some_at_not_In.
Qed.



(** ** Difficulty *)

Lemma moveSnake_score (random : nat -> Z) (fuel : nat) (s s' : State) :
  moveSnake random fuel s = Some s' ->
  score s' = score s \/ score s' = score s + 1.
Proof.
  rewrite moveSnake_unfold.
  destruct (negb (GameState_eqb (gameState s) playing));
    [intros H; injection H as <-; now left|].
  destruct (snake s) as [|h t]; [intros H; injection H as <-; now left|].
  destruct (checkCollision (candidate h (direction s)) (h :: t));
    [intros H; injection H as <-; now left|].
  destruct (on_food (candidate h (direction s)) s);
    [|intros H; injection H as <-; now left].
  destruct (generateFood random fuel (draws s)
              (candidate h (direction s) :: h :: t)) as [[newFood n]|];
    [|discriminate].
  intros H; injection H as <-; now right.
Qed.

(** X13.  In every reachable state the Level lies between 1 and 80 and
    the TickInterval is at most 150; a step never lowers the Level and
    never raises the TickInterval: the game only gets faster until it
    is reset. *)
Theorem steps_never_slow_down (random : nat -> Z) (s : State) :
  reachable random s ->
  1 <= level s <= 80 /\ speed s <= 150
  /\ forall fuel s', moveSnake random fuel s = Some s' ->
       level s <= level s' /\ speed s' <= speed s.
Proof.
  intros Hr.
  pose proof (reachable_level random s Hr) as Hl.
  pose proof (reachable_speed random s Hr) as Hs.
  pose proof (reachable_score_length random s Hr) as Hn.
  pose proof (reachable_length_le random s Hr) as Hle.
  pose proof (reachable_length_ge random s Hr) as Hge.
  unfold levelOf in Hl.
  unfold speedOf, MIN_SPEED, INITIAL_SPEED, SPEED_INCREASE in Hs.
  assert (H0 : 0 <= score s <= 399) by lia.
  assert (Hq : 0 <= score s / 5 <= 79).
  { split; [apply Z.div_pos; lia|].
    apply Z.lt_succ_r, Z.div_lt_upper_bound; lia. }
  split; [lia|]. split; [lia|].
  intros fuel s' Hm.
  assert (Hr' : reachable random s') by (eapply reachable_step with (e := Tick); eauto).
  pose proof (reachable_level random s' Hr') as Hl'.
  pose proof (reachable_speed random s' Hr') as Hs'.
  unfold levelOf in Hl'.
  unfold speedOf, MIN_SPEED, INITIAL_SPEED, SPEED_INCREASE in Hs'.
  assert (Hsc : score s <= score s')
    by (destruct (moveSnake_score random fuel s s' Hm); lia).
  assert (Hd : score s / 5 <= score s' / 5) by (apply Z.div_le_mono; lia).
  lia.
Qed.

Lemma score_bounds_of_reachable (random : nat -> Z) (s : State) :
  reachable random s -> 0 <= score s /\ score s <= 399.
Proof.
  intros Hr. pose proof (reachable_score_length random s Hr).
  pose proof (reachable_length_le random s Hr).
  pose proof (reachable_length_ge random s Hr). lia.
Qed.

(** ** The stored high score *)

Lemma dispatch_highScore_other (random : nat -> Z) (fuel : nat) (e : Event)
      (s s' : State) :
  e <> Tick -> dispatch random fuel e s = Some s' ->
  highScore s' = highScore s.
Proof.
  intros He Hd. destruct e; try contradiction; cbn [dispatch] in Hd;
    injection Hd as <-; try apply handleKeyPress_highScore;
    unfold togglePause; destruct (gameState s); reflexivity.
Qed.

Lemma storeHighScore_follows (toString : Z -> string) (random : nat -> Z)
      (fuel : nat) (s s' : State) (item : option string) :
  moveSnake random fuel s = Some s' ->
  (storeHighScore toString s item = Some (toString (score s))
   /\ highScore s' = score s)
  \/ (storeHighScore toString s item = item /\ highScore s' = highScore s).
Proof.
  intros Hm. unfold storeHighScore.
  destruct (terminalCollision s) eqn:Hc; cbn [andb].
  - rewrite (moveSnake_crash random fuel s Hc) in Hm. injection Hm as <-.
    fields. destruct (score s >? highScore s) eqn:E; [left | right];
      split; auto; lia.
  - right. split; [reflexivity|].
    destruct (Z.eq_dec (highScore s') (highScore s)) as [|Hne]; [assumption|].
    apply moveSnake_transition in Hm.
    apply (transition_highScore _ _ Hm) in Hne as [Ht _]. congruence.
Qed.

Section Storage.

Variable toString : Z -> string.
Variable parseInt : string -> option Z.
Variable random : nat -> Z.

(** What is written for a score is not empty and is read back. *)
Hypothesis read_back :
  forall n, 0 <= n <= 399 ->
            parseInt (toString n) = Some n /\ toString n <> ""%string.

Lemma runStored_keeps_highScore (fuel : nat) (es : list Event) :
  forall s item s' item',
    reachable random s ->
    (exists s1, mountStored parseInt item = Some s1
                /\ highScore s1 = highScore s) ->
    runStored toString random fuel es (s, item) = Some (s', item') ->
    exists s1, mountStored parseInt item' = Some s1
               /\ highScore s1 = highScore s'.
Proof.
  induction es as [|e es IH]; intros s item s' item' Hr Hinv; cbn [runStored].
  - intros H. injection H as <- <-. exact Hinv.
  - unfold dispatchStored. cbn [fst snd].
    destruct (dispatch random fuel e s) as [s2|] eqn:Hd; [|discriminate].
    apply IH; [eapply reachable_step; eauto|].
    assert (Hother : forall e', e' <> Tick ->
              dispatch random fuel e' s = Some s2 ->
              exists s1, mountStored parseInt item = Some s1
                         /\ highScore s1 = highScore s2).
    { intros e' He' Hd'.
      now rewrite (dispatch_highScore_other random fuel e' s s2 He' Hd'). }
    destruct e; try (eapply Hother; [|exact Hd]; discriminate).
    cbn [dispatch] in Hd.
    destruct (storeHighScore_follows toString random fuel s s2 item Hd)
      as [[-> ->] | [-> ->]]; [|exact Hinv].
    destruct (score_bounds_of_reachable random s Hr) as [Hlo Hhi].
    destruct (read_back (score s) (conj Hlo Hhi)) as [Hp Hne].
    apply String.eqb_neq in Hne.
    exists (mount (Some (score s))). cbn [mountStored].
    rewrite Hne, Hp. split; reflexivity.
Qed.

End Storage.

(** X14.  The high score survives a reload.  Take any [toString] and
    [parseInt] such that what is written for a score (0 to 399) is not
    empty and is read back.  If the page mounts on an item, absent or
    readable, and any events follow, then mounting again on the item
    left in the storage gives the high score of the end of the session. *)
Theorem highScore_survives_reload (toString : Z -> string)
        (parseInt : string -> option Z) (random : nat -> Z) (fuel : nat)
        (es : list Event) (item item' : option string) (s0 s : State) :
  (forall n, 0 <= n <= 399 ->
             parseInt (toString n) = Some n /\ toString n <> ""%string) ->
  mountStored parseInt item = Some s0 ->
  runStored toString random fuel es (s0, item) = Some (s, item') ->
  exists s1, mountStored parseInt item' = Some s1
             /\ highScore s1 = highScore s.
Proof.
  intros Hrb Hm Hrun.
  apply (runStored_keeps_highScore toString parseInt random Hrb fuel es
           s0 item s item'); [|eauto|exact Hrun].
  assert (Hs0 : exists saved, s0 = mount saved).
  { unfold mountStored in Hm. destruct item as [str|].
    - destruct (String.eqb str ""); [exists None; congruence|].
      destruct (parseInt str) as [n|]; [exists (Some n); congruence|].
      discriminate.
    - exists None. congruence. }
  destruct Hs0 as [saved ->]. apply reachable_mount.
Qed.

(** * The further properties on concrete games *)

Lemma readDecimal_decimal (n : Z) :
  readDecimal (decimal n) = Some n /\ decimal n <> ""%string.
Proof.
  assert (H : readDecimal (decimal n) = Some n).
  { unfold readDecimal, decimal. rewrite DecimalString.NilZero.isi.
    - cbn [option_map]. now rewrite DecimalZ.of_to.
    - destruct n; cbn; try discriminate.
      intros [= H]. now apply DecimalPos.Unsigned.to_uint_nonnil in H.
    - destruct n; cbn; try discriminate.
      intros [= H]. now apply DecimalPos.Unsigned.to_uint_nonnil in H. }
  split; [exact H|]. intros E. rewrite E in H. discriminate.
Qed.

Lemma snake_cells_distinct_witness :
  reachable lucky winning /\ NoDup (snake winning).
Proof.
  split; [exact winning_reachable|].
  exact (snake_cells_distinct lucky winning winning_reachable).
Defined.

Lemma snake_is_a_path_witness :
  List.length (snake winning) = 399%nat /\ connected (snake winning) = true.
Proof.
  split; [vm_compute; reflexivity|].
  exact (snake_is_a_path lucky winning winning_reachable).
Defined.

Lemma score_is_length_minus_one_witness :
  reachable lucky winning
  /\ (1 <= List.length (snake winning) <= 400)%nat
  /\ score winning = Z.of_nat (List.length (snake winning)) - 1
  /\ 0 <= score winning <= 399.
Proof.
  split; [exact winning_reachable|].
  exact (score_is_length_minus_one lucky winning winning_reachable).
Defined.

Lemma pause_freezes_the_game_witness :
  gameState aboutToEat = playing
  /\ run sweep 0 [KeyDown "Space"; Tick; Tick; Tick; KeyDown "Space"] aboutToEat
     = Some aboutToEat.
Proof.
  split; [reflexivity|].
  exact (pause_freezes_the_game sweep 0 3 aboutToEat (KeyDown "Space")
           eq_refl (or_introl eq_refl)).
Defined.

Lemma turn_accepted_witness :
  keyDirection "KeyW" = Some UP
  /\ handleKeyPress "KeyW" twoCells = setDirection UP twoCells
  /\ direction (handleKeyPress "KeyW" twoCells) = UP.
Proof.
  split; [reflexivity|].
  apply (turn_accepted "KeyW" UP twoCells);
    [left; reflexivity | reflexivity | discriminate].
Defined.

(** Heading right with the second cell on the left: Up, then Left, and
    the step runs into the second cell. *)
Lemma two_keys_reverse_the_snake_witness :
  gameState twoCells = playing
  /\ direction (handleKeyPress "ArrowLeft" (handleKeyPress "ArrowUp" twoCells))
     = LEFT
  /\ exists s',
       moveSnake sweep 0
         (handleKeyPress "ArrowLeft" (handleKeyPress "ArrowUp" twoCells))
       = Some s'
       /\ gameState s' = gameOver.
Proof.
  split; [reflexivity|].
  apply (two_keys_reverse_the_snake sweep 0 twoCells {| x := 10; y := 10 |}
           {| x := 9; y := 10 |} [] "ArrowUp" "ArrowLeft" UP);
    try reflexivity; discriminate.
Defined.

Lemma other_keys_are_ignored_witness :
  handleKeyPress "ArrowUp" (mount None) = mount None
  /\ handleKeyPress "KeyQ" twoCells = twoCells.
Proof.
  destruct (other_keys_are_ignored "ArrowUp" (mount None)) as (Hm & _).
  destruct (other_keys_are_ignored "KeyQ" twoCells) as (_ & _ & Hp).
  split.
  - apply Hm; [reflexivity | discriminate | discriminate].
  - apply Hp; [left; reflexivity | discriminate | discriminate | reflexivity].
Defined.

Lemma gameState_moves_witness :
  dispatch sweep 0 Tick atTheWall = Some (crashed atTheWall)
  /\ (gameOver = playing
      \/ (playing = menu /\ gameOver = playing)
      \/ (playing = playing /\ gameOver = paused)
      \/ (playing = paused /\ gameOver = playing)
      \/ (playing = playing /\ gameOver = gameOver)
      \/ (playing = gameOver /\ gameOver = playing)).
Proof.
  split; [reflexivity|].
  exact (gameState_moves sweep 0 Tick atTheWall (crashed atTheWall) eq_refl).
Defined.

(** A visitor with the stored item "3" loses a first game with the
    score 1: the high score stays 3. *)
Lemma highScore_never_decreases_witness :
  mountStored readDecimal (Some "3"%string) = Some (mount (Some 3))
  /\ exists s, run sweep 1 lostSession (mount (Some 3)) = Some s
       /\ gameState s = gameOver /\ score s = 1
       /\ (gameState s = gameOver -> score s <= highScore s)
       /\ 3 <= highScore s
       /\ forall fuel' e s', dispatch sweep fuel' e s = Some s' ->
            highScore s <= highScore s'.
Proof.
  split; [reflexivity|].
  eexists. split; [vm_compute; reflexivity|].
  split; [reflexivity|]. split; [reflexivity|].
  eapply (highScore_never_decreases readDecimal (Some "3"%string) sweep 1
            lostSession (mount (Some 3))).
  - reflexivity.
  - vm_compute. reflexivity.
Defined.

(** A tie: the game is lost with the score 7, the high score was 7 and
    stays 7, and the banner is shown. *)
Lemma banner_after_collision_witness :
  terminalCollision tiedAtTheWall = true
  /\ exists s', moveSnake sweep 0 tiedAtTheWall = Some s'
       /\ (newHighScoreBanner s' = true <-> 0 < 7 /\ 7 <= 7).
Proof.
  split; [reflexivity|].
  exact (banner_after_collision sweep 0 tiedAtTheWall eq_refl).
Defined.

(** With the draws of [sweep] and a snake on (0,0) and (1,0), the third
    iteration draws the first free cell, (2,0). *)
Lemma generateFood_first_free_witness :
  generateFood sweep 5 0 [ {| x := 0; y := 0 |}; {| x := 1; y := 0 |} ]
  = Some ({| x := 2; y := 0 |}, 6%nat)
  /\ exists k, (k < 5)%nat
       /\ {| x := 2; y := 0 |} = randomCell sweep (0 + 2 * k)
       /\ 6%nat = (0 + 2 * k + 2)%nat
       /\ ~ In {| x := 2; y := 0 |}
              [ {| x := 0; y := 0 |}; {| x := 1; y := 0 |} ]
       /\ forall j, (j < k)%nat ->
            In (randomCell sweep (0 + 2 * j))
               [ {| x := 0; y := 0 |}; {| x := 1; y := 0 |} ].
Proof.
  split; [vm_compute; reflexivity|].
  apply (generateFood_first_free sweep 5 0). vm_compute. reflexivity.
Defined.


Lemma steps_never_slow_down_witness :
  reachable sweep afterEating
  /\ 1 <= level afterEating <= 80 /\ speed afterEating <= 150
  /\ forall fuel s', moveSnake sweep fuel afterEating = Some s' ->
       level afterEating <= level s' /\ speed s' <= speed afterEating.
Proof.
  split; [exact afterEating_reachable|].
  exact (steps_never_slow_down sweep afterEating afterEating_reachable).
Defined.

(** A first visit: nothing is stored, the game is lost with the score
    1, the item "1" is written, and the next mount reads the high score
    of the end of the session. *)
Lemma highScore_survives_reload_witness :
  exists s,
    runStored decimal sweep 1 lostSession (mount None, None)
    = Some (s, Some "1"%string)
    /\ gameState s = gameOver /\ score s = 1
    /\ exists s1, mountStored readDecimal (Some "1"%string) = Some s1
                  /\ highScore s1 = highScore s.
Proof.
  eexists. split; [vm_compute; reflexivity|].
  split; [reflexivity|]. split; [reflexivity|].
  eapply (highScore_survives_reload decimal readDecimal sweep 1 lostSession
            None (Some "1"%string) (mount None)).
  - intros n _. apply readDecimal_decimal.
  - reflexivity.
  - vm_compute. reflexivity.
Defined.
